(** * nav: resolution of the run-time configuration (config.go)

    A shallow embedding of [config.go]: the switch registry built by
    [cmdLineItemInit], the switch handlers, and the sequential parser
    [argsParse], followed by the properties of the parser.

    Conventions of the embedding.
    - A Go [string] is a [string] (a sequence of bytes); a Go [int] is a
      [Z] (64-bit platform: [strconv.Atoi] rejects what does not fit).
    - The only heap object of the file is the map allocated by the
      literal of [defaultConfig]; a [configuration] holds a reference to
      it, and the [heap] maps references to map contents, so that the
      struct copy [conf = defaultConfig] copies the reference and not
      the map.
    - A handler works on [*configuration]; here it takes the
      configuration and gives the updated one back, with the error.
    - A run-time panic (index out of range, write to a nil map, call of
      a nil function value) is an outcome of its own.
    - [os.Args[1:]], the files [os.Open] can reach and the JSON scanner
      are inputs: the token list is an argument, the other two are
      fields of the environment [World]. *)

From Stdlib Require Import ZArith Lia Ascii String.
From stdpp Require Import base gmap strings list fin_maps.

Local Open Scope string_scope.
Local Open Scope Z_scope.

#[local] Set Warnings "-register-all".

(* ===================================================================== *)
(** ** Errors *)
(* ===================================================================== *)

(** The two errors of [strconv]: [ErrSyntax] and [ErrRange]. *)
Inductive numErr := ErrSyntax | ErrRange.

(** The error values that reach the caller of [argsParse]. *)
Inductive error :=
| errorsNew (msg : string)                         (* errors.New(msg) *)
| NumError (func num : string) (err : numErr)      (* *strconv.NumError *)
| PathError (op path : string)                     (* *fs.PathError of os.Open *)
| SyntaxError                                      (* *json.SyntaxError *)
| UnmarshalTypeError (value field : string).       (* *json.UnmarshalTypeError *)

(* ===================================================================== *)
(** ** strconv.Atoi *)
(* ===================================================================== *)

Definition isDigit (c : ascii) : bool :=
  let n := N_of_ascii c in ((48 <=? n) && (n <=? 57))%N.

Definition digitVal (c : ascii) : Z := Z.of_N (N_of_ascii c) - 48.

(** The digits of [s], most significant first, accumulated on [acc];
    [None] when a byte is not a decimal digit. *)
Fixpoint parseDigits (s : string) (acc : Z) : option Z :=
  match s with
  | EmptyString => Some acc
  | String c rest =>
      if isDigit c then parseDigits rest (acc * 10 + digitVal c) else None
  end.

Definition minInt : Z := - 2 ^ 63.
Definition maxInt : Z := 2 ^ 63 - 1.

(** [strconv.ParseInt(s, 10, 64)]: an optional sign, then at least one
    decimal digit and nothing else (base 10 is explicit, so no
    underscores); a value outside the 64-bit range is a range error. *)
Definition ParseInt (s : string) : Z + numErr :=
  let body (neg : bool) (ds : string) : Z + numErr :=
    match ds with
    | EmptyString => inr ErrSyntax
    | _ =>
        match parseDigits ds 0 with
        | None => inr ErrSyntax
        | Some n =>
            let v := if neg then - n else n in
            if (minInt <=? v) && (v <=? maxInt) then inl v else inr ErrRange
        end
    end in
  match s with
  | EmptyString => inr ErrSyntax
  | String "-" ds => body true ds
  | String "+" ds => body false ds
  | _ => body false s
  end.

(** [strconv.Atoi]: the same language and range ([int] is 64 bits wide);
    the error names the function and the input. *)
Definition Atoi (s : string) : Z + error :=
  match ParseInt s with
  | inl v => inl v
  | inr e => inr (NumError "Atoi" s e)
  end.

(* ===================================================================== *)
(** ** The configuration *)
(* ===================================================================== *)

(** A reference to a [map[string]bool] object, and the heap of these. *)
Definition mapRef := positive.
Abbreviation heap := (gmap positive (gmap string bool)).

(** [outMode] is declared outside [config.go]; it is an integer type and
    the conversion [outMode(s)] keeps the value. *)
Definition outMode := Z.

(** [type configuration struct]. A [[]string] is its list of elements. *)
Record configuration := mkConf {
  cmdlineNeeds   : mapRef;
  DBTargetDB     : string;
  DBUrl          : string;
  DBUser         : string;
  DBPassword     : string;
  Symbol         : string;
  Jout           : string;
  ExcludedBefore : list string;
  ExcludedAfter  : list string;
  TargetSubsys   : list string;
  Instance       : Z;
  MaxDepth       : Z;
  Mode           : outMode;
  DBPort         : Z
}.

(** Field assignments [conf.F = v]. *)
Definition withDBTargetDB (v : string) (c : configuration) : configuration :=
  mkConf (cmdlineNeeds c) v (DBUrl c) (DBUser c) (DBPassword c) (Symbol c) (Jout c)
    (ExcludedBefore c) (ExcludedAfter c) (TargetSubsys c) (Instance c) (MaxDepth c) (Mode c) (DBPort c).
Definition withDBUrl (v : string) (c : configuration) : configuration :=
  mkConf (cmdlineNeeds c) (DBTargetDB c) v (DBUser c) (DBPassword c) (Symbol c) (Jout c)
    (ExcludedBefore c) (ExcludedAfter c) (TargetSubsys c) (Instance c) (MaxDepth c) (Mode c) (DBPort c).
Definition withDBUser (v : string) (c : configuration) : configuration :=
  mkConf (cmdlineNeeds c) (DBTargetDB c) (DBUrl c) v (DBPassword c) (Symbol c) (Jout c)
    (ExcludedBefore c) (ExcludedAfter c) (TargetSubsys c) (Instance c) (MaxDepth c) (Mode c) (DBPort c).
Definition withDBPassword (v : string) (c : configuration) : configuration :=
  mkConf (cmdlineNeeds c) (DBTargetDB c) (DBUrl c) (DBUser c) v (Symbol c) (Jout c)
    (ExcludedBefore c) (ExcludedAfter c) (TargetSubsys c) (Instance c) (MaxDepth c) (Mode c) (DBPort c).
Definition withSymbol (v : string) (c : configuration) : configuration :=
  mkConf (cmdlineNeeds c) (DBTargetDB c) (DBUrl c) (DBUser c) (DBPassword c) v (Jout c)
    (ExcludedBefore c) (ExcludedAfter c) (TargetSubsys c) (Instance c) (MaxDepth c) (Mode c) (DBPort c).
Definition withJout (v : string) (c : configuration) : configuration :=
  mkConf (cmdlineNeeds c) (DBTargetDB c) (DBUrl c) (DBUser c) (DBPassword c) (Symbol c) v
    (ExcludedBefore c) (ExcludedAfter c) (TargetSubsys c) (Instance c) (MaxDepth c) (Mode c) (DBPort c).
Definition withExcludedBefore (v : list string) (c : configuration) : configuration :=
  mkConf (cmdlineNeeds c) (DBTargetDB c) (DBUrl c) (DBUser c) (DBPassword c) (Symbol c) (Jout c)
    v (ExcludedAfter c) (TargetSubsys c) (Instance c) (MaxDepth c) (Mode c) (DBPort c).
Definition withExcludedAfter (v : list string) (c : configuration) : configuration :=
  mkConf (cmdlineNeeds c) (DBTargetDB c) (DBUrl c) (DBUser c) (DBPassword c) (Symbol c) (Jout c)
    (ExcludedBefore c) v (TargetSubsys c) (Instance c) (MaxDepth c) (Mode c) (DBPort c).
Definition withTargetSubsys (v : list string) (c : configuration) : configuration :=
  mkConf (cmdlineNeeds c) (DBTargetDB c) (DBUrl c) (DBUser c) (DBPassword c) (Symbol c) (Jout c)
    (ExcludedBefore c) (ExcludedAfter c) v (Instance c) (MaxDepth c) (Mode c) (DBPort c).
Definition withInstance (v : Z) (c : configuration) : configuration :=
  mkConf (cmdlineNeeds c) (DBTargetDB c) (DBUrl c) (DBUser c) (DBPassword c) (Symbol c) (Jout c)
    (ExcludedBefore c) (ExcludedAfter c) (TargetSubsys c) v (MaxDepth c) (Mode c) (DBPort c).
Definition withMaxDepth (v : Z) (c : configuration) : configuration :=
  mkConf (cmdlineNeeds c) (DBTargetDB c) (DBUrl c) (DBUser c) (DBPassword c) (Symbol c) (Jout c)
    (ExcludedBefore c) (ExcludedAfter c) (TargetSubsys c) (Instance c) v (Mode c) (DBPort c).
Definition withMode (v : outMode) (c : configuration) : configuration :=
  mkConf (cmdlineNeeds c) (DBTargetDB c) (DBUrl c) (DBUser c) (DBPassword c) (Symbol c) (Jout c)
    (ExcludedBefore c) (ExcludedAfter c) (TargetSubsys c) (Instance c) (MaxDepth c) v (DBPort c).
Definition withDBPort (v : Z) (c : configuration) : configuration :=
  mkConf (cmdlineNeeds c) (DBTargetDB c) (DBUrl c) (DBUser c) (DBPassword c) (Symbol c) (Jout c)
    (ExcludedBefore c) (ExcludedAfter c) (TargetSubsys c) (Instance c) (MaxDepth c) (Mode c) v.

(** The exported fields, by name, and a uniform view of their values. *)
Inductive field :=
| FDBTargetDB | FDBUrl | FDBUser | FDBPassword | FSymbol | FJout
| FExcludedBefore | FExcludedAfter | FTargetSubsys
| FInstance | FMaxDepth | FMode | FDBPort.

#[global] Instance field_eq_dec : EqDecision field.
Proof. solve_decision. Defined.

Definition allFields : list field :=
  [FDBTargetDB; FDBUrl; FDBUser; FDBPassword; FSymbol; FJout;
   FExcludedBefore; FExcludedAfter; FTargetSubsys;
   FInstance; FMaxDepth; FMode; FDBPort].

Inductive fval :=
| VStr (s : string)
| VInt (z : Z)
| VList (l : list string).

Definition getField (f : field) (c : configuration) : fval :=
  match f with
  | FDBTargetDB => VStr (DBTargetDB c)
  | FDBUrl => VStr (DBUrl c)
  | FDBUser => VStr (DBUser c)
  | FDBPassword => VStr (DBPassword c)
  | FSymbol => VStr (Symbol c)
  | FJout => VStr (Jout c)
  | FExcludedBefore => VList (ExcludedBefore c)
  | FExcludedAfter => VList (ExcludedAfter c)
  | FTargetSubsys => VList (TargetSubsys c)
  | FInstance => VInt (Instance c)
  | FMaxDepth => VInt (MaxDepth c)
  | FMode => VInt (Mode c)
  | FDBPort => VInt (DBPort c)
  end.

(** The constants of [outMode] that the file uses are declared elsewhere.
    The help text of [-m] in [cmdLineItemInit] numbers them:
    "Sets display mode 2=subsystems,1=all". The end marker [OutModeLast]
    is a field of the environment below. *)
Definition printAll : outMode := 1.
Definition printSubsys : outMode := 2.

Definition DBPortNumber : Z := 5432.

(** The map allocated by the literal [map[string]bool{}] of
    [defaultConfig], at package initialisation. *)
Definition needsLoc : mapRef := 1%positive.
Definition initHeap : heap := {[ needsLoc := (∅ : gmap string bool) ]}.

(** [var defaultConfig = configuration{...}]. The file never assigns the
    variable, so it is a constant here; what changes is the map that its
    field [cmdlineNeeds] refers to, in the heap. *)
Definition defaultConfig : configuration := {|
  cmdlineNeeds := needsLoc;
  DBTargetDB := "kernel_bin";
  DBUrl := "dbs.hqhome163.com";
  DBUser := "alessandro";
  DBPassword := "<password>";
  Symbol := "";
  Jout := "graphOnly";
  ExcludedBefore := [];
  ExcludedAfter := [];
  TargetSubsys := [];
  Instance := 0;
  MaxDepth := 0;
  Mode := printSubsys;
  DBPort := DBPortNumber
|}.

(* ===================================================================== *)
(** ** encoding/json: decoding a document onto the configuration *)
(* ===================================================================== *)

(** A scanned JSON value. A number keeps its literal: the decoder parses
    it according to the type of the field it is stored into. *)
Inductive json :=
| JNull
| JBool (b : bool)
| JNumber (lit : string)
| JString (s : string)
| JArray (elems : list json)
| JObject (members : list (string * json)).

(** What [UnmarshalTypeError.Value] says of a value of the wrong kind. *)
Definition jsonKind (v : json) : string :=
  match v with
  | JNull => "null"
  | JBool _ => "bool"
  | JNumber _ => "number"
  | JString _ => "string"
  | JArray _ => "array"
  | JObject _ => "object"
  end.

(** The environment of a run: the end marker of [outMode] (declared
    outside the file), what [os.Open] followed by [io.ReadAll] gives for
    a path ([None] when the file cannot be opened; a read error is
    dropped by [funcJconf], which goes on with the bytes read so far),
    and the JSON scanner ([None] for a document that is not valid
    JSON). *)
Record World := {
  OutModeLast : outMode;
  osOpen : string -> option string;
  jsonScan : string -> option json
}.

(** Go field names, as the decoder sees them (no struct tags). *)
Definition fieldName (f : field) : string :=
  match f with
  | FDBTargetDB => "DBTargetDB"
  | FDBUrl => "DBUrl"
  | FDBUser => "DBUser"
  | FDBPassword => "DBPassword"
  | FSymbol => "Symbol"
  | FJout => "Jout"
  | FExcludedBefore => "ExcludedBefore"
  | FExcludedAfter => "ExcludedAfter"
  | FTargetSubsys => "TargetSubsys"
  | FInstance => "Instance"
  | FMaxDepth => "MaxDepth"
  | FMode => "Mode"
  | FDBPort => "DBPort"
  end.

Definition byteIs (c : ascii) (n : N) : bool := (N_of_ascii c =? n)%N.

Definition upperASCII (c : ascii) : ascii :=
  let n := N_of_ascii c in
  if ((97 <=? n) && (n <=? 122))%N then ascii_of_N (n - 32) else c.

(** Case folding of a member name: ASCII letters to upper case, and the
    two non-ASCII runes that fold to an ASCII letter, U+017F (bytes C5 BF)
    to S and U+212A (bytes E2 84 AA) to K. Other bytes are kept: a name
    holding them matches no field. *)
Fixpoint foldName (s : string) : string :=
  match s with
  | EmptyString => EmptyString
  | String c rest =>
      match rest with
      | String c1 rest1 =>
          if byteIs c 197 && byteIs c1 191 then String "S" (foldName rest1)
          else
            match rest1 with
            | String c2 rest2 =>
                if byteIs c 226 && byteIs c1 132 && byteIs c2 170
                then String "K" (foldName rest2)
                else String (upperASCII c) (foldName rest)
            | EmptyString => String (upperASCII c) (foldName rest)
            end
      | EmptyString => String (upperASCII c) EmptyString
      end
  end.

(** The field a member name selects: the first field, in declaration
    order, with the same name up to case folding (an exact match is one
    of these, and no two fields fold to the same name). The unexported
    [cmdlineNeeds] is not a candidate. *)
Definition fieldOfKey (key : string) : option field :=
  List.find (fun f => String.eqb (foldName (fieldName f)) (foldName key)) allFields.

Definition firstErr (e1 e2 : option error) : option error :=
  match e1 with Some _ => e1 | None => e2 end.

(** Storing a value into a [string]: a JSON string is stored, [null]
    changes nothing, anything else is a type error and changes nothing. *)
Definition storeString (name : string) (v : json) (old : string) : string * option error :=
  match v with
  | JString s => (s, None)
  | JNull => (old, None)
  | _ => (old, Some (UnmarshalTypeError (jsonKind v) name))
  end.

(** Storing into an [int]: the literal goes through [ParseInt]. *)
Definition storeInt (name : string) (v : json) (old : Z) : Z * option error :=
  match v with
  | JNumber lit =>
      match ParseInt lit with
      | inl n => (n, None)
      | inr _ => (old, Some (UnmarshalTypeError ("number " ++ lit) name))
      end
  | JNull => (old, None)
  | _ => (old, Some (UnmarshalTypeError (jsonKind v) name))
  end.

(** Storing the elements of an array into a [[]string]: element [i] is
    decoded into slot [i] of the slice, which holds the old element when
    the slice was that long and the empty string otherwise. *)
Fixpoint storeElems (name : string) (elems : list json) (old : list string)
  : list string * option error :=
  match elems with
  | [] => ([], None)
  | e :: es =>
      let '(x, e1) := storeString name e (hd "" old) in
      let '(xs, e2) := storeElems name es (tl old) in
      (x :: xs, firstErr e1 e2)
  end.

(** Storing into a [[]string]: [null] gives the nil slice. *)
Definition storeStrings (name : string) (v : json) (old : list string)
  : list string * option error :=
  match v with
  | JArray elems => storeElems name elems old
  | JNull => ([], None)
  | _ => (old, Some (UnmarshalTypeError (jsonKind v) name))
  end.

Definition storeField (f : field) (v : json) (c : configuration) : configuration * option error :=
  let str (get : configuration -> string) (set : string -> configuration -> configuration) :=
    let '(x, e) := storeString (fieldName f) v (get c) in (set x c, e) in
  let int (get : configuration -> Z) (set : Z -> configuration -> configuration) :=
    let '(x, e) := storeInt (fieldName f) v (get c) in (set x c, e) in
  let strs (get : configuration -> list string) (set : list string -> configuration -> configuration) :=
    let '(x, e) := storeStrings (fieldName f) v (get c) in (set x c, e) in
  match f with
  | FDBTargetDB => str DBTargetDB withDBTargetDB
  | FDBUrl => str DBUrl withDBUrl
  | FDBUser => str DBUser withDBUser
  | FDBPassword => str DBPassword withDBPassword
  | FSymbol => str Symbol withSymbol
  | FJout => str Jout withJout
  | FExcludedBefore => strs ExcludedBefore withExcludedBefore
  | FExcludedAfter => strs ExcludedAfter withExcludedAfter
  | FTargetSubsys => strs TargetSubsys withTargetSubsys
  | FInstance => int Instance withInstance
  | FMaxDepth => int MaxDepth withMaxDepth
  | FMode => int Mode withMode
  | FDBPort => int DBPort withDBPort
  end.

(** The members of an object, in document order: a member that names a
    field is stored into it, any other member is skipped; a type error
    is remembered (the first one is reported) and decoding goes on. *)
Fixpoint storeMembers (members : list (string * json)) (c : configuration)
  : configuration * option error :=
  match members with
  | [] => (c, None)
  | (key, v) :: rest =>
      let '(c1, e1) :=
        match fieldOfKey key with
        | Some f => storeField f v c
        | None => (c, None)
        end in
      let '(c2, e2) := storeMembers rest c1 in
      (c2, firstErr e1 e2)
  end.

(** [json.Unmarshal(data, conf)], [conf] a [*configuration]: the document
    is checked first, and an invalid one changes nothing. *)
Definition Unmarshal (W : World) (data : string) (c : configuration)
  : configuration * option error :=
  match jsonScan W data with
  | None => (c, Some SyntaxError)
  | Some JNull => (c, None)
  | Some (JObject members) => storeMembers members c
  | Some v => (c, Some (UnmarshalTypeError (jsonKind v) ""))
  end.

(* ===================================================================== *)
(** ** Handlers and the registry *)
(* ===================================================================== *)

(** What a call of a handler does: it returns, with the configuration as
    the handler left it and the error, or it panics. *)
Inductive hres :=
| HRet (c : configuration) (err : option error)
| HPanic.

(** [type argFunc]: a function from a pointer to the configuration and a
    slice of strings to an error. *)
Definition argFunc := configuration -> list string -> hres.

(** [type cmdLineItems struct] *)
Record cmdLineItems := mkItem {
  function  : argFunc;
  switchStr : string;
  helpStr   : string;
  id        : Z;
  hasArg    : bool;
  needed    : bool
}.

Definition pushCmdLineItem (switchStr helpStr : string) (hasArg needed : bool)
    (function : argFunc) (cmdLine : list cmdLineItems) : list cmdLineItems :=
  cmdLine ++ [ {| id := Z.of_nat (length cmdLine) + 1; switchStr := switchStr;
                  helpStr := helpStr; hasArg := hasArg; needed := needed;
                  function := function |} ].

Definition funcHelp : argFunc := fun conf fn =>
  HRet conf (Some (errorsNew "command help")).

(** The handlers below read element 0 of their argument slice: on an
    empty slice the index is out of range. *)
Definition funcOutType : argFunc := fun conf jout =>
  match jout with
  | [] => HPanic
  | a :: _ => HRet (withJout a conf) None
  end.

Definition funcSymbol : argFunc := fun conf fn =>
  match fn with
  | [] => HPanic
  | a :: _ => HRet (withSymbol a conf) None
  end.

Definition funcDBUser : argFunc := fun conf user =>
  match user with
  | [] => HPanic
  | a :: _ => HRet (withDBUser a conf) None
  end.

Definition funcDBPass : argFunc := fun conf pass =>
  match pass with
  | [] => HPanic
  | a :: _ => HRet (withDBPassword a conf) None
  end.

Definition funcDBHost : argFunc := fun conf host =>
  match host with
  | [] => HPanic
  | a :: _ => HRet (withDBUrl a conf) None
  end.

Definition funcDBPort : argFunc := fun conf port =>
  match port with
  | [] => HPanic
  | a :: _ =>
      match Atoi a with
      | inr err => HRet conf (Some err)
      | inl s => HRet (withDBPort s conf) None
      end
  end.

Definition funcDepth : argFunc := fun conf depth =>
  match depth with
  | [] => HPanic
  | a :: _ =>
      match Atoi a with
      | inr err => HRet conf (Some err)
      | inl s =>
          if s <? 0 then HRet conf (Some (errorsNew "depth must be >= 0"))
          else HRet (withMaxDepth s conf) None
      end
  end.

Definition funcInstance : argFunc := fun conf instance =>
  match instance with
  | [] => HPanic
  | a :: _ =>
      match Atoi a with
      | inr err => HRet conf (Some err)
      | inl s => HRet (withInstance s conf) None
      end
  end.

Section WithWorld.

Context (W : World).

Definition funcMode : argFunc := fun conf mode =>
  match mode with
  | [] => HPanic
  | a :: _ =>
      match Atoi a with
      | inr err => HRet conf (Some err)
      | inl s =>
          if (s <? printAll) || (OutModeLast W <=? s)
          then HRet conf (Some (errorsNew "unsupported mode"))
          else HRet (withMode s conf) None
      end
  end.

(** The deferred [Close] assigns its error to a local variable after the
    result has been set: it does not reach the caller. *)
Definition funcJconf : argFunc := fun conf fn =>
  match fn with
  | [] => HPanic
  | a :: _ =>
      match osOpen W a with
      | None => HRet conf (Some (PathError "open" a))
      | Some byteValue =>
          let '(conf', err) := Unmarshal W byteValue conf in
          HRet conf' err
      end
  end.

Definition cmdLineItemInit : list cmdLineItems :=
  let res := [] in
  let res := pushCmdLineItem "-j" "Force Json output with subsystems data" true false funcOutType res in
  let res := pushCmdLineItem "-s" "Specifies symbol" true true funcSymbol res in
  let res := pushCmdLineItem "-i" "Specifies instance" true true funcInstance res in
  let res := pushCmdLineItem "-f" "Specifies config file" true false funcJconf res in
  let res := pushCmdLineItem "-u" "Forces use specified database userid" true false funcDBUser res in
  let res := pushCmdLineItem "-p" "Forces use specified password" true false funcDBPass res in
  let res := pushCmdLineItem "-d" "Forces use specified DBHost" true false funcDBHost res in
  let res := pushCmdLineItem "-p" "Forces use specified DBPort" true false funcDBPort res in
  let res := pushCmdLineItem "-m" "Sets display mode 2=subsystems,1=all" true false funcMode res in
  let res := pushCmdLineItem "-x" "Specify Max depth in call flow exploration" true false funcDepth res in
  let res := pushCmdLineItem "-h" "This help" false false funcHelp res in
  res.

End WithWorld.

(* ===================================================================== *)
(** ** The parser *)
(* ===================================================================== *)

(** [m[k] = v] on the map behind [r]; a reference to no map is the nil
    map, and writing to it panics. *)
Definition mapAssign (r : mapRef) (k : string) (v : bool) (h : heap) : option heap :=
  match h !! r with
  | Some m => Some (<[r := <[k := v]> m]> h)
  | None => None
  end.

(** What the caller of [argsParse] gets: the two results and the heap as
    the call leaves it, or a panic. *)
Inductive outcome :=
| Returned (c : configuration) (err : option error) (h : heap)
| Panicked.

(** The local variables of [argsParse], and the heap. *)
Record pstate := mkState {
  st_conf  : configuration;
  st_extra : bool;
  st_f     : option argFunc;
  st_heap  : heap
}.

(** A loop either goes on with a state or leaves the function. *)
Inductive result :=
| Continue (st : pstate)
| Stop (o : outcome).

(** The first loop: the tracker entry of every needed switch is set to
    [false]. *)
Fixpoint initNeeds (lines : list cmdLineItems) (conf : configuration) (h : heap)
  : option heap :=
  match lines with
  | [] => Some h
  | item :: rest =>
      if needed item then
        match mapAssign (cmdlineNeeds conf) (switchStr item) false h with
        | None => None
        | Some h' => initNeeds rest conf h'
        end
      else initNeeds rest conf h
  end.

(** The inner loop [for _, arg := range lines], on the token [osArg]. *)
Fixpoint matchLoop (lines : list cmdLineItems) (osArg : string) (st : pstate) : result :=
  match lines with
  | [] => Continue st
  | arg :: rest =>
      if String.eqb (switchStr arg) osArg then
        match (if needed arg
               then mapAssign (cmdlineNeeds (st_conf st)) (switchStr arg) true (st_heap st)
               else Some (st_heap st)) with
        | None => Stop Panicked
        | Some h =>
            if hasArg arg then
              (* f = arg.function; extra = true; break *)
              Continue (mkState (st_conf st) true (Some (function arg)) h)
            else
              match function arg (st_conf st) [] with
              | HPanic => Stop Panicked
              | HRet _ (Some err) => Stop (Returned defaultConfig (Some err) h)
              | HRet conf' None =>
                  matchLoop rest osArg (mkState conf' (st_extra st) (st_f st) h)
              end
        end
      else matchLoop rest osArg st
  end.

(** The outer loop [for _, osArg := range os.Args[1:]]. *)
Fixpoint argLoop (lines : list cmdLineItems) (args : list string) (st : pstate) : result :=
  match args with
  | [] => Continue st
  | osArg :: rest =>
      if negb (st_extra st) then
        match matchLoop lines osArg st with
        | Continue st' => argLoop lines rest st'
        | Stop o => Stop o
        end
      else
        match st_f st with
        | None => Stop Panicked
        | Some f =>
            match f (st_conf st) [osArg] with
            | HPanic => Stop Panicked
            | HRet _ (Some err) => Stop (Returned defaultConfig (Some err) (st_heap st))
            | HRet conf' None =>
                argLoop lines rest (mkState conf' false (st_f st) (st_heap st))
            end
        end
  end.

(** [for _, element := range conf.cmdlineNeeds { res = res && element }]:
    a range over the nil map has no iteration. *)
Definition allNeeds (r : mapRef) (h : heap) : bool :=
  match h !! r with
  | Some m => map_fold (fun (_ : string) (element res : bool) => res && element) true m
  | None => true
  end.

(** [argsParse(lines)], on the tokens [args] of [os.Args[1:]], from the
    heap [h]. *)
Definition argsParse (h : heap) (lines : list cmdLineItems) (args : list string) : outcome :=
  let conf := defaultConfig in
  match initNeeds lines conf h with
  | None => Panicked
  | Some h0 =>
      match argLoop lines args (mkState conf false None h0) with
      | Stop o => o
      | Continue st =>
          if st_extra st then
            Returned defaultConfig (Some (errorsNew "missing switch arg")) (st_heap st)
          else if allNeeds (cmdlineNeeds (st_conf st)) (st_heap st) then
            Returned (st_conf st) None (st_heap st)
          else
            Returned defaultConfig (Some (errorsNew "missing needed arg")) (st_heap st)
      end
  end.

(** The tracker as a configuration gives access to it. *)
Definition needsOf (c : configuration) (h : heap) : option (gmap string bool) :=
  h !! cmdlineNeeds c.

(** The member names of the document behind a path: none when the file
    cannot be opened, is not valid JSON, or is not an object. *)
Definition docKeys (W : World) (path : string) : list string :=
  match osOpen W path with
  | None => []
  | Some data =>
      match jsonScan W data with
      | Some (JObject members) => List.map fst members
      | _ => []
      end
  end.

(** The value a well-typed JSON value leaves in a field: a string for a
    string field, a number literal that [ParseInt] accepts for an integer
    field, an array of strings for a list field. *)
Definition allStrings (elems : list json) : option (list string) :=
  foldr (fun e acc =>
           match e, acc with
           | JString s, Some l => Some (s :: l)
           | _, _ => None
           end) (Some []) elems.

Definition jsonFits (X : field) (v : json) : option fval :=
  match getField X defaultConfig, v with
  | VStr _, JString s => Some (VStr s)
  | VInt _, JNumber lit =>
      match ParseInt lit with inl n => Some (VInt n) | inr _ => None end
  | VList _, JArray elems => VList <$> allStrings elems
  | _, _ => None
  end.

(** A world with no file, for examples: [OutModeLast] one past the two
    modes that the help text names. *)
Definition bareWorld : World :=
  {| OutModeLast := 3; osOpen := fun _ => None; jsonScan := fun _ => None |}.


(** A handler that leaves the tracker reference of the configuration as
    it found it. *)
Definition goodHandler (f : argFunc) : Prop :=
  forall c a c' e, f c a = HRet c' e -> cmdlineNeeds c' = cmdlineNeeds c.

(** The first descriptor of the registry whose token is [tok]. *)
Definition handlerOf (lines : list cmdLineItems) (tok : string) : option cmdLineItems :=
  List.find (fun it => String.eqb (switchStr it) tok) lines.

(** [marked r Q h h']: from [h] to [h'] only the map behind [r] has
    changed, and in it only entries of keys that satisfy [Q], which are
    now [true]. *)
Definition marked (r : mapRef) (Q : string -> Prop) (h h' : heap) : Prop :=
  exists m m' : gmap string bool,
    h !! r = Some m /\ h' = <[r := m']> h /\
    forall k, m' !! k = m !! k \/ (Q k /\ m' !! k = Some true).

(** The state of the parser between two tokens, for a registry of good
    handlers: the working configuration refers to the map [r], which is
    allocated, and a pending handler is a good one. *)
Definition stateOK (r : mapRef) (st : pstate) : Prop :=
  cmdlineNeeds (st_conf st) = r /\
  is_Some (st_heap st !! r) /\
  forall f, st_f st = Some f -> goodHandler f.

(** Whether [k] is the token of a needed descriptor of the registry. *)
Definition neededTok (lines : list cmdLineItems) (k : string) : bool :=
  existsb (fun it => needed it && String.eqb (switchStr it) k) lines.

(** The first two loops of [argsParse]: the tracker is initialised and
    the tokens are scanned. [Continue st] is the end of the stream, with
    the local variables [st]; [Stop o] is a return from inside the loop. *)
Definition scanArgs (h : heap) (lines : list cmdLineItems) (args : list string) : result :=
  match initNeeds lines defaultConfig h with
  | None => Stop Panicked
  | Some h0 => argLoop lines args (mkState defaultConfig false None h0)
  end.

(** The byte 0x22, and a document that holds the port only. *)
Definition dquote : string := String (ascii_of_N 34) EmptyString.
Definition portDoc : string := "{" ++ dquote ++ "DBPort" ++ dquote ++ ": 5433}".

(** A world with one file, [nav.json], holding [portDoc]. *)
Definition fileWorld : World :=
  {| OutModeLast := 3;
     osOpen := fun path => if String.eqb path "nav.json" then Some portDoc else None;
     jsonScan := fun data =>
       if String.eqb data portDoc then Some (JObject [("DBPort", JNumber "5433")]) else None |}.




(** *** Streams as sequences of segments

    A stream that the parser reads without stopping is a sequence of
    segments: a switch token with the token that follows it, its
    argument, or a token that is no switch and is skipped. *)
Inductive segment :=
| Switch (tok arg : string)
| Other (tok : string).

Definition tokensOf (u : segment) : list string :=
  match u with
  | Switch tok arg => [tok; arg]
  | Other tok => [tok]
  end.

Definition render (us : list segment) : list string := flat_map tokensOf us.

(** A segment in order: the token of [Other] is the token of no
    descriptor; the token of [Switch] is the token of a descriptor, the
    first of which takes an argument and has a handler that accepts the
    argument of the segment, whatever the configuration. *)
Definition segmentOK (W : World) (u : segment) : Prop :=
  match u with
  | Other tok => handlerOf (cmdLineItemInit W) tok = None
  | Switch tok arg =>
      exists it, handlerOf (cmdLineItemInit W) tok = Some it /\
                 hasArg it = true /\
                 forall c, exists c', function it c [arg] = HRet c' None
  end.

(** What a segment does to the configuration. *)
Definition applySegment (W : World) (c : configuration) (u : segment) : configuration :=
  match u with
  | Other _ => c
  | Switch tok arg =>
      match handlerOf (cmdLineItemInit W) tok with
      | Some it =>
          match function it c [arg] with
          | HRet c' None => c'
          | _ => c
          end
      | None => c
      end
  end.

(** The field that a switch sets from its argument, for the switches
    that set one field, and the value that the argument stands for. *)
Definition switchField (tok : string) : option field :=
  if String.eqb tok "-j" then Some FJout
  else if String.eqb tok "-s" then Some FSymbol
  else if String.eqb tok "-i" then Some FInstance
  else if String.eqb tok "-u" then Some FDBUser
  else if String.eqb tok "-p" then Some FDBPassword
  else if String.eqb tok "-d" then Some FDBUrl
  else if String.eqb tok "-m" then Some FMode
  else if String.eqb tok "-x" then Some FMaxDepth
  else None.

Definition argValue (F : field) (arg : string) : fval :=
  match getField F defaultConfig with
  | VStr _ => VStr arg
  | VInt _ => match Atoi arg with inl n => VInt n | inr _ => VInt 0 end
  | VList _ => VList []
  end.

(** Whether a segment may write the field [F]: a switch of one field
    writes that field, [-f] the fields that the members of its document
    name. *)
Definition overrides (W : World) (u : segment) (F : field) : bool :=
  match u with
  | Other _ => false
  | Switch tok arg =>
      if String.eqb tok "-f"
      then existsb (fun k => bool_decide (fieldOfKey k = Some F)) (docKeys W arg)
      else bool_decide (switchField tok = Some F)
  end.

(** The tracker entry of the key [k], in the map of [defaultConfig]. *)
Definition trackerAt (h : heap) (k : string) : option bool :=
  h !! needsLoc ≫= (fun m : gmap string bool => m !! k).



(* ===================================================================== *)
(** ** Proof tools *)
(* ===================================================================== *)

(** Lemmas on the handlers of the registry. *)
Create HintDb handlers.

(** A handler that sets one field, or fails, keeps the tracker
    reference. *)
Ltac good_simple :=
  intros c a c' e H;
  match type of H with ?f _ _ = _ => unfold f in H end;
  destruct a; try discriminate;
  repeat match type of H with
         | context [Atoi ?s] => destruct (Atoi s)
         | context [if ?b then _ else _] => destruct b
         end;
  inversion H; subst; reflexivity.

(** A switch of the one field [X] leaves the field [F] that it does not
    override. *)
Ltac frame_one_field t X Hov F :=
  change (bool_decide (switchField t = Some F) = false) in Hov;
  apply bool_decide_eq_false in Hov;
  change (switchField t) with (Some X) in Hov;
  destruct F; try reflexivity; exfalso; apply Hov; reflexivity.


(* ===================================================================== *)
(** ** The help text *)
(* ===================================================================== *)

Definition appName : string := "App Name: nav".
Definition appDescr : string := "Descr: kernel symbol navigator".

(** The bytes 0x09 and 0x0A. *)
Definition tab : string := String (ascii_of_N 9) EmptyString.
Definition newline : string := String (ascii_of_N 10) EmptyString.

(** What [fmt.Println(s)] writes. *)
Definition Println (s : string) : string := s ++ newline.

(** What the [fmt.Printf] of [printHelp] writes for a descriptor: a tab,
    the token, a tab, the marker of an argument, a tab, the help text,
    a newline. *)
Definition helpLine (item : cmdLineItems) : string :=
  tab ++ switchStr item ++ tab ++ (if hasArg item then "<v>" else "")
      ++ tab ++ helpStr item ++ newline.

(** [printHelp(lines)]: the text written to the standard output, one
    write after the other. *)
Definition printHelp (lines : list cmdLineItems) : string :=
  fold_left (fun out item => out ++ helpLine item) lines
    (Println appName ++ Println appDescr).

(** The number of bytes [c] in [s]. *)
Fixpoint countByte (c : ascii) (s : string) : nat :=
  match s with
  | EmptyString => O
  | String c' rest => ((if Ascii.eqb c c' then 1 else 0) + countByte c rest)%nat
  end.

Definition noNewline (s : string) : bool :=
  Nat.eqb (countByte (ascii_of_N 10) s) 0.

(** A registry whose identifiers are 1, 2, ... in registration order. *)
Definition idsSequential (lines : list cmdLineItems) : Prop :=
  List.map id lines = List.map (fun i => Z.of_nat i + 1) (seq 0 (length lines)).

(* ===================================================================== *)
(** ** Further notions on handlers and configurations *)
(* ===================================================================== *)

(** A handler that, when it succeeds from a configuration with the
    property [P], leaves a configuration with the property [P]. *)
Definition keeps (P : configuration -> Prop) (f : argFunc) : Prop :=
  forall c a c', P c -> f c a = HRet c' None -> P c'.

(** The ranges that the handlers of [-x] and [-m] enforce. *)
Definition validConf (W : World) (c : configuration) : Prop :=
  0 <= MaxDepth c /\ printAll <= Mode c < OutModeLast W.

(** The handlers of the registry other than the one of [-f], each with
    the field it sets. *)
Definition handlerTable (W : World) : list (argFunc * option field) :=
  [ (funcOutType, Some FJout); (funcSymbol, Some FSymbol);
    (funcInstance, Some FInstance); (funcDBUser, Some FDBUser);
    (funcDBPass, Some FDBPassword); (funcDBHost, Some FDBUrl);
    (funcDBPort, Some FDBPort); (funcMode W, Some FMode);
    (funcDepth, Some FMaxDepth); (funcHelp, None) ].

(** A world with one file, [depth.json], whose document sets the depth
    to -5. *)
Definition depthDoc : string := "{" ++ dquote ++ "MaxDepth" ++ dquote ++ ": -5}".

Definition depthWorld : World :=
  {| OutModeLast := 3;
     osOpen := fun path => if String.eqb path "depth.json" then Some depthDoc else None;
     jsonScan := fun data =>
       if String.eqb data depthDoc then Some (JObject [("MaxDepth", JNumber "-5")]) else None |}.
(* ===================================================================== *)
(** ** The library functions on small inputs *)
(* ===================================================================== *)

Example Atoi_examples :
  Atoi "42" = inl 42 /\ Atoi "-7" = inl (-7) /\ Atoi "+3" = inl 3 /\
  Atoi "007" = inl 7 /\
  Atoi "" = inr (NumError "Atoi" "" ErrSyntax) /\
  Atoi "-" = inr (NumError "Atoi" "-" ErrSyntax) /\
  Atoi "1_0" = inr (NumError "Atoi" "1_0" ErrSyntax) /\
  Atoi " 1" = inr (NumError "Atoi" " 1" ErrSyntax) /\
  Atoi "9223372036854775807" = inl maxInt /\
  Atoi "-9223372036854775808" = inl minInt /\
  Atoi "9223372036854775808" = inr (NumError "Atoi" "9223372036854775808" ErrRange).
Proof. repeat split; vm_compute; reflexivity. Qed.

Example fieldOfKey_examples :
  fieldOfKey "DBPort" = Some FDBPort /\ fieldOfKey "dbport" = Some FDBPort /\
  fieldOfKey "SYMBOL" = Some FSymbol /\
  fieldOfKey "cmdlineNeeds" = None /\ fieldOfKey "Port" = None.
Proof. repeat split; vm_compute; reflexivity. Qed.

Example storeMembers_example :
  storeMembers [("Symbol", JString "main"); ("MaxDepth", JNumber "4");
                ("DBPort", JString "x"); ("Unknown", JBool true);
                ("TargetSubsys", JArray [JString "net"; JString "fs"])]
    defaultConfig
  = (withTargetSubsys ["net"; "fs"] (withMaxDepth 4 (withSymbol "main" defaultConfig)),
     Some (UnmarshalTypeError "string" "DBPort")).
Proof. vm_compute. reflexivity. Qed.

(* ===================================================================== *)
(** ** Properties of the decoder *)
(* ===================================================================== *)

(** Storing into a field keeps the tracker reference and every other
    field. *)
Lemma storeField_frame (X : field) (v : json) (c c' : configuration) (e : option error) :
  storeField X v c = (c', e) ->
  cmdlineNeeds c' = cmdlineNeeds c /\
  forall F, F <> X -> getField F c' = getField F c.
Proof.
  intros H. unfold storeField in H.
  destruct X;
    repeat match type of H with
    | context [storeString ?a ?b ?d] => destruct (storeString a b d)
    | context [storeInt ?a ?b ?d] => destruct (storeInt a b d)
    | context [storeStrings ?a ?b ?d] => destruct (storeStrings a b d)
    end;
    inversion H; subst; clear H; (split; [reflexivity|]);
    intros F HF; destruct F; try reflexivity; congruence.
Qed.

(** Decoding an object keeps the tracker reference and every field that
    no member names. *)
Lemma storeMembers_frame (members : list (string * json)) :
  forall (c c' : configuration) (e : option error),
    storeMembers members c = (c', e) ->
    cmdlineNeeds c' = cmdlineNeeds c /\
    forall F, (forall k v, In (k, v) members -> fieldOfKey k <> Some F) ->
              getField F c' = getField F c.
Proof.
  induction members as [|[key v] rest IH]; intros c c' e H; simpl in H.
  - inversion H; subst. split; reflexivity.
  - destruct (fieldOfKey key) as [X|] eqn:Hk.
    + destruct (storeField X v c) as [c1 e1] eqn:H1.
      destruct (storeMembers rest c1) as [c2 e2] eqn:H2.
      inversion H; subst; clear H.
      destruct (storeField_frame _ _ _ _ _ H1) as [Hr1 Hf1].
      destruct (IH _ _ _ H2) as [Hr2 Hf2].
      split; [congruence|].
      intros F HF. rewrite Hf2.
      * apply Hf1. intros ->. apply (HF key v); [left; reflexivity | exact Hk].
      * intros k w Hin. apply (HF k w). right. exact Hin.
    + destruct (storeMembers rest c) as [c2 e2] eqn:H2.
      inversion H; subst; clear H.
      destruct (IH _ _ _ H2) as [Hr2 Hf2].
      split; [exact Hr2|].
      intros F HF. apply Hf2. intros k w Hin. apply (HF k w). right. exact Hin.
Qed.

Lemma Unmarshal_frame (W : World) (data : string) (c c' : configuration) (e : option error) :
  Unmarshal W data c = (c', e) ->
  cmdlineNeeds c' = cmdlineNeeds c /\
  forall F,
    (forall members k, jsonScan W data = Some (JObject members) ->
                       In k (List.map fst members) -> fieldOfKey k <> Some F) ->
    getField F c' = getField F c.
Proof.
  unfold Unmarshal. intros H.
  destruct (jsonScan W data) as [[| | | | |members]|] eqn:Hs;
    try (inversion H; subst; split; reflexivity).
  destruct (storeMembers_frame _ _ _ _ H) as [Hr Hf].
  split; [exact Hr|].
  intros F HF. apply Hf. intros k v Hin.
  apply (HF members k eq_refl). apply in_map_iff. exists (k, v). split; [reflexivity | exact Hin].
Qed.

Lemma storeElems_allStrings (name : string) (elems : list json) :
  forall (old l : list string),
    allStrings elems = Some l -> storeElems name elems old = (l, None).
Proof.
  induction elems as [|e es IH]; intros old l H; simpl in *.
  - inversion H. reflexivity.
  - destruct e; try discriminate.
    destruct (allStrings es) as [l'|] eqn:Hes; [|discriminate].
    inversion H; subst. rewrite (IH (tl old) l' eq_refl). reflexivity.
Qed.

Lemma storeField_fits (X : field) (v : json) (x : fval) (c : configuration) :
  jsonFits X v = Some x ->
  exists c', storeField X v c = (c', None) /\ getField X c' = x.
Proof.
  unfold jsonFits. intros H.
  destruct X; simpl in H; destruct v; try discriminate;
    unfold storeField; simpl;
    try (inversion H; subst; eexists; split; reflexivity);
    try (destruct (ParseInt lit) eqn:Hp; [|discriminate];
         inversion H; subst; eexists; split; reflexivity);
    try (destruct (allStrings elems) as [l|] eqn:Ha; [|discriminate];
         inversion H; subst; rewrite (storeElems_allStrings _ _ _ _ Ha);
         eexists; split; reflexivity).
Qed.

Example argsParse_example :
  argsParse initHeap (cmdLineItemInit bareWorld) ["-s"; "foo"; "-i"; "2"; "-x"; "3"]
  = Returned (withMaxDepth 3 (withInstance 2 (withSymbol "foo" defaultConfig))) None
      {[ needsLoc := {[ "-s" := true; "-i" := true ]} ]}.
Proof. vm_compute. reflexivity. Qed.


(* ===================================================================== *)
(** ** Properties of the handlers *)
(* ===================================================================== *)

Lemma funcHelp_good : goodHandler funcHelp.
Proof. intros c a c' e H. unfold funcHelp in H. inversion H; subst; reflexivity. Qed.
Lemma funcOutType_good : goodHandler funcOutType.
Proof. good_simple. Qed.
Lemma funcSymbol_good : goodHandler funcSymbol.
Proof. good_simple. Qed.
Lemma funcDBUser_good : goodHandler funcDBUser.
Proof. good_simple. Qed.
Lemma funcDBPass_good : goodHandler funcDBPass.
Proof. good_simple. Qed.
Lemma funcDBHost_good : goodHandler funcDBHost.
Proof. good_simple. Qed.
Lemma funcDBPort_good : goodHandler funcDBPort.
Proof. good_simple. Qed.
Lemma funcDepth_good : goodHandler funcDepth.
Proof. good_simple. Qed.
Lemma funcInstance_good : goodHandler funcInstance.
Proof. good_simple. Qed.
Lemma funcMode_good (W : World) : goodHandler (funcMode W).
Proof.
  intros c a c' e H. unfold funcMode in H.
  destruct a; try discriminate.
  destruct (Atoi _); [destruct (_ || _)|]; inversion H; subst; reflexivity.
Qed.

Lemma funcJconf_good (W : World) : goodHandler (funcJconf W).
Proof.
  intros c a c' e H. unfold funcJconf in H.
  destruct a as [|p ?]; try discriminate.
  destruct (osOpen W p) as [data|].
  - destruct (Unmarshal W data c) as [c1 e1] eqn:HU.
    inversion H; subst. apply (Unmarshal_frame _ _ _ _ _ HU).
  - inversion H; subst; reflexivity.
Qed.

#[local] Hint Resolve funcHelp_good funcOutType_good funcSymbol_good funcDBUser_good
  funcDBPass_good funcDBHost_good funcDBPort_good funcDepth_good funcInstance_good
  funcMode_good funcJconf_good : handlers.

Lemma cmdLineItemInit_good (W : World) :
  Forall (fun it => goodHandler (function it)) (cmdLineItemInit W).
Proof. unfold cmdLineItemInit, pushCmdLineItem. simpl. repeat constructor; simpl; auto with handlers. Qed.

(* ===================================================================== *)
(** ** Properties of the loops *)
(* ===================================================================== *)

Lemma argLoop_app (lines : list cmdLineItems) (a b : list string) :
  forall st,
    argLoop lines (a ++ b) st =
    match argLoop lines a st with
    | Continue st' => argLoop lines b st'
    | Stop o => Stop o
    end.
Proof.
  induction a as [|t a IH]; intros st; simpl; [reflexivity|].
  destruct (negb (st_extra st)).
  - destruct (matchLoop lines t st); [apply IH | reflexivity].
  - destruct (st_f st) as [f|]; [|reflexivity].
    destruct (f (st_conf st) [t]) as [c' [err|]|]; try reflexivity. apply IH.
Qed.

(** A loop that leaves the function returns the default configuration
    and an error. *)
Lemma matchLoop_stop (lines : list cmdLineItems) (t : string) :
  forall st c e h,
    matchLoop lines t st = Stop (Returned c e h) ->
    c = defaultConfig /\ e <> None.
Proof.
  induction lines as [|arg rest IH]; intros st c e h H; simpl in H; [discriminate|].
  destruct (String.eqb (switchStr arg) t); [|eauto].
  destruct (if needed arg then _ else _) as [h1|]; [|discriminate].
  destruct (hasArg arg); [discriminate|].
  destruct (function arg (st_conf st) []) as [c' [err|]|]; try discriminate; [|eauto].
  inversion H; subst. split; [reflexivity | discriminate].
Qed.

Lemma argLoop_stop (lines : list cmdLineItems) (args : list string) :
  forall st c e h,
    argLoop lines args st = Stop (Returned c e h) ->
    c = defaultConfig /\ e <> None.
Proof.
  induction args as [|t args IH]; intros st c e h H; simpl in H; [discriminate|].
  destruct (negb (st_extra st)).
  - destruct (matchLoop lines t st) as [st'|o] eqn:Hm; [eauto|].
    inversion H; subst. eapply matchLoop_stop; eauto.
  - destruct (st_f st) as [f|]; [|discriminate].
    destruct (f (st_conf st) [t]) as [c' [err|]|]; try discriminate; [|eauto].
    inversion H; subst. split; [reflexivity | discriminate].
Qed.


(** *** The tracker *)

Lemma marked_refl (r : mapRef) (Q : string -> Prop) (h : heap) :
  is_Some (h !! r) -> marked r Q h h.
Proof.
  intros [m Hm]. exists m, m. split; [exact Hm|]. split.
  - symmetry. apply insert_id. exact Hm.
  - intros k. left. reflexivity.
Qed.

Lemma marked_trans (r : mapRef) (Q : string -> Prop) (h1 h2 h3 : heap) :
  marked r Q h1 h2 -> marked r Q h2 h3 -> marked r Q h1 h3.
Proof.
  intros (m1 & m2 & H1 & -> & H12) (m2' & m3 & H2 & -> & H23).
  rewrite lookup_insert_eq in H2. inversion H2; subst m2'.
  exists m1, m3. split; [exact H1|]. split.
  - apply insert_insert_eq.
  - intros k. destruct (H23 k) as [E|[Hin E]].
    + destruct (H12 k) as [E'|[Hin' E']].
      * left. congruence.
      * right. split; [exact Hin' | congruence].
    + right. split; [exact Hin | exact E].
Qed.

Lemma marked_some (r : mapRef) (Q : string -> Prop) (h h' : heap) :
  marked r Q h h' -> is_Some (h' !! r).
Proof. intros (m & m' & _ & -> & _). rewrite lookup_insert_eq. eauto. Qed.

Lemma mapAssign_marked (r : mapRef) (Q : string -> Prop) (k : string) (h : heap) :
  is_Some (h !! r) -> Q k ->
  exists h', mapAssign r k true h = Some h' /\ marked r Q h h'.
Proof.
  intros [m Hm] HQ. unfold mapAssign. rewrite Hm. eexists. split; [reflexivity|].
  exists m, (<[k := true]> m). split; [exact Hm|]. split; [reflexivity|].
  intros k'. destruct (decide (k = k')) as [<-|Hne].
  - right. split; [exact HQ | apply lookup_insert_eq].
  - left. apply lookup_insert_ne. exact Hne.
Qed.

(** The inner loop, on the token [t]: it writes to the tracker only, and
    there only the entry of [t], and only when [t] is the token of a
    needed descriptor. *)
Lemma matchLoop_marked (lines : list cmdLineItems) (t : string) (r : mapRef)
    (Q : string -> Prop) :
  Forall (fun it => goodHandler (function it)) lines ->
  Forall (fun it => needed it = true -> switchStr it = t -> Q t) lines ->
  forall st, stateOK r st ->
    match matchLoop lines t st with
    | Continue st' => stateOK r st' /\ marked r Q (st_heap st) (st_heap st')
    | Stop (Returned c e h') => marked r Q (st_heap st) h'
    | Stop Panicked => True
    end.
Proof.
  induction 1 as [|arg rest Hgood Hrest IH]; intros HQ st (Hr & Hs & Hf); simpl.
  - split; [repeat split; assumption | apply marked_refl; exact Hs].
  - pose proof (Forall_inv HQ) as HQ1. pose proof (Forall_inv_tail HQ) as HQr.
    destruct (String.eqb_spec (switchStr arg) t) as [Heq|Hne].
    2:{ apply IH; [exact HQr | repeat split; assumption]. }
    assert (exists h1, (if needed arg
                        then mapAssign (cmdlineNeeds (st_conf st)) (switchStr arg) true (st_heap st)
                        else Some (st_heap st)) = Some h1 /\ marked r Q (st_heap st) h1)
      as (h1 & -> & Hm1).
    { destruct (needed arg) eqn:Hn.
      - rewrite Hr, Heq. apply mapAssign_marked; [exact Hs | apply HQ1; auto].
      - eexists. split; [reflexivity | apply marked_refl; exact Hs]. }
    destruct (hasArg arg).
    + split; [|exact Hm1].
      split; [exact Hr|]. split; [apply (marked_some _ _ _ _ Hm1)|].
      simpl. intros f [= <-]. exact Hgood.
    + destruct (function arg (st_conf st) []) as [c' [err|]|] eqn:Hcall; [exact Hm1| |exact I].
      specialize (IH HQr (mkState c' (st_extra st) (st_f st) h1)). simpl in IH.
      assert (stateOK r (mkState c' (st_extra st) (st_f st) h1)) as HOK.
      { split; [simpl; rewrite (Hgood _ _ _ _ Hcall); exact Hr|].
        split; [apply (marked_some _ _ _ _ Hm1) | exact Hf]. }
      specialize (IH HOK).
      destruct (matchLoop rest t _) as [st'|[c e h'|]]; [| |exact I].
      * destruct IH as [HOK' Hm2]. split; [exact HOK'|].
        eapply marked_trans; eassumption.
      * eapply marked_trans; eassumption.
Qed.

Lemma argLoop_marked (lines : list cmdLineItems) (r : mapRef) (Q : string -> Prop) :
  Forall (fun it => goodHandler (function it)) lines ->
  forall args,
    (forall t, In t args ->
               Forall (fun it => needed it = true -> switchStr it = t -> Q t) lines) ->
    forall st, stateOK r st ->
      match argLoop lines args st with
      | Continue st' => stateOK r st' /\ marked r Q (st_heap st) (st_heap st')
      | Stop (Returned c e h') => marked r Q (st_heap st) h'
      | Stop Panicked => True
      end.
Proof.
  intros Hgood. induction args as [|t args IH]; intros HQ st HOK; simpl.
  - split; [exact HOK | apply marked_refl; apply HOK].
  - assert (forall t', In t' args ->
              Forall (fun it => needed it = true -> switchStr it = t' -> Q t') lines) as HQ'
      by (intros t' Hin; apply HQ; right; exact Hin).
    specialize (IH HQ').
    destruct (negb (st_extra st)).
    + pose proof (matchLoop_marked lines t r Q Hgood (HQ t (or_introl eq_refl)) st HOK) as Hm.
      destruct (matchLoop lines t st) as [st1|[c e h'|]]; [|exact Hm|exact I].
      destruct Hm as [HOK1 Hm1]. specialize (IH st1 HOK1).
      destruct (argLoop lines args st1) as [st'|[c e h'|]]; [| |exact I].
      * destruct IH as [HOK' Hm2]. split; [exact HOK'|].
        apply (marked_trans r Q _ _ _ Hm1 Hm2).
      * apply (marked_trans r Q _ _ _ Hm1 IH).
    + destruct HOK as (Hr & Hs & Hf).
      destruct (st_f st) as [f|] eqn:Hst; [|exact I].
      destruct (f (st_conf st) [t]) as [c' [err|]|] eqn:Hcall; [| |exact I].
      * apply marked_refl. exact Hs.
      * assert (stateOK r (mkState c' false (Some f) (st_heap st))) as HOK1.
        { split; [simpl; rewrite (Hf f eq_refl _ _ _ _ Hcall); exact Hr|].
          split; [exact Hs|]. simpl. intros g [= <-]. apply Hf. reflexivity. }
        specialize (IH _ HOK1). simpl in IH. exact IH.
Qed.

Lemma neededTok_intro (lines : list cmdLineItems) (it : cmdLineItems) :
  In it lines -> needed it = true -> neededTok lines (switchStr it) = true.
Proof.
  intros Hin Hn. unfold neededTok. apply existsb_exists. exists it.
  split; [exact Hin|]. rewrite Hn, String.eqb_refl. reflexivity.
Qed.

(** The first loop of [argsParse]: the entries of the needed tokens are
    [false], the others are as they were. *)
Lemma initNeeds_spec (lines : list cmdLineItems) (conf : configuration) :
  forall (h : heap) (m : gmap string bool),
    h !! cmdlineNeeds conf = Some m ->
    exists m0 : gmap string bool,
      initNeeds lines conf h = Some (<[cmdlineNeeds conf := m0]> h) /\
      forall k, m0 !! k = if neededTok lines k then Some false else m !! k.
Proof.
  induction lines as [|item rest IH]; intros h m Hm; simpl.
  - exists m. split; [f_equal; symmetry; apply insert_id; exact Hm | reflexivity].
  - destruct (needed item) eqn:Hn; simpl.
    + unfold mapAssign. rewrite Hm.
      destruct (IH (<[cmdlineNeeds conf := <[switchStr item := false]> m]> h)
                   (<[switchStr item := false]> m)) as (m0 & Hi & Hk).
      { apply lookup_insert_eq. }
      exists m0. split.
      * rewrite Hi. f_equal. apply insert_insert_eq.
      * intros k. rewrite Hk.
        destruct (neededTok rest k); [destruct (String.eqb _ _); reflexivity|].
        destruct (String.eqb_spec (switchStr item) k) as [->|Hne].
        -- apply lookup_insert_eq.
        -- apply lookup_insert_ne. exact Hne.
    + apply IH. exact Hm.
Qed.

(** The last loop of [argsParse] gives [true] exactly when no entry of
    the map is [false]. *)
Lemma needs_fold_true (m : gmap string bool) :
  map_fold (fun (_ : string) (element res : bool) => res && element) true m = true <->
  forall k, m !! k <> Some false.
Proof.
  apply (map_fold_weak_ind
           (fun (b : bool) (m : gmap string bool) => b = true <-> forall k, m !! k <> Some false)).
  - split; [intros _ k; rewrite lookup_empty; discriminate | reflexivity].
  - intros i x m' r Hi [IH1 IH2]. split.
    + intros Hand. apply andb_true_iff in Hand as [Hr Hx]. subst x.
      intros k. destruct (decide (i = k)) as [->|Hne].
      * rewrite lookup_insert_eq. discriminate.
      * rewrite lookup_insert_ne by exact Hne. apply IH1. exact Hr.
    + intros Hall. apply andb_true_iff. split.
      * apply IH2. intros k Hk. apply (Hall k).
        destruct (decide (i = k)) as [->|Hne]; [congruence|].
        rewrite lookup_insert_ne by exact Hne. exact Hk.
      * destruct x; [reflexivity|]. exfalso. apply (Hall i). apply lookup_insert_eq.
Qed.

Lemma allNeeds_true (r : mapRef) (h : heap) (m : gmap string bool) :
  h !! r = Some m -> (allNeeds r h = true <-> forall k, m !! k <> Some false).
Proof. intros Hm. unfold allNeeds. rewrite Hm. apply needs_fold_true. Qed.

Lemma argsParse_scan (h : heap) (lines : list cmdLineItems) (args : list string) :
  argsParse h lines args =
  match scanArgs h lines args with
  | Stop o => o
  | Continue st =>
      if st_extra st then
        Returned defaultConfig (Some (errorsNew "missing switch arg")) (st_heap st)
      else if allNeeds (cmdlineNeeds (st_conf st)) (st_heap st) then
        Returned (st_conf st) None (st_heap st)
      else
        Returned defaultConfig (Some (errorsNew "missing needed arg")) (st_heap st)
  end.
Proof.
  unfold argsParse, scanArgs.
  destruct (initNeeds lines defaultConfig h); reflexivity.
Qed.

Lemma scanArgs_app (h : heap) (lines : list cmdLineItems) (a b : list string) :
  scanArgs h lines (a ++ b) =
  match scanArgs h lines a with
  | Continue st => argLoop lines b st
  | Stop o => Stop o
  end.
Proof.
  unfold scanArgs. destruct (initNeeds lines defaultConfig h); [|reflexivity].
  apply argLoop_app.
Qed.

Lemma scanArgs_stop (h : heap) (lines : list cmdLineItems) (args : list string)
    (c : configuration) (e : option error) (h' : heap) :
  scanArgs h lines args = Stop (Returned c e h') ->
  c = defaultConfig /\ e <> None.
Proof.
  unfold scanArgs. destruct (initNeeds lines defaultConfig h); [|discriminate].
  apply argLoop_stop.
Qed.

(** The scan starts from the default configuration, ready for a switch,
    with the tracker that the first loop leaves. *)
Lemma scanArgs_init (h : heap) (lines : list cmdLineItems) (args : list string)
    (m : gmap string bool) :
  h !! needsLoc = Some m ->
  exists m0 : gmap string bool,
    scanArgs h lines args
    = argLoop lines args (mkState defaultConfig false None (<[needsLoc := m0]> h)).
Proof.
  intros Hm. unfold scanArgs.
  destruct (initNeeds_spec lines defaultConfig h m Hm) as (m0 & Hinit & _).
  exists m0. rewrite Hinit. reflexivity.
Qed.

(** The outer loop on a token, ready for a switch. *)
Lemma argLoop_ready (lines : list cmdLineItems) (t : string) (rest : list string)
    (st : pstate) :
  st_extra st = false ->
  argLoop lines (t :: rest) st =
  match matchLoop lines t st with
  | Continue st' => argLoop lines rest st'
  | Stop o => Stop o
  end.
Proof. intros H. simpl. rewrite H. reflexivity. Qed.

(** The outer loop on a token, with the handler [f] waiting for it. *)
Lemma argLoop_pending (lines : list cmdLineItems) (t : string) (rest : list string)
    (c : configuration) (f : argFunc) (h : heap) :
  argLoop lines (t :: rest) (mkState c true (Some f) h) =
  match f c [t] with
  | HPanic => Stop Panicked
  | HRet _ (Some err) => Stop (Returned defaultConfig (Some err) h)
  | HRet conf' None => argLoop lines rest (mkState conf' false (Some f) h)
  end.
Proof. reflexivity. Qed.

(** The scan of a registry of good handlers, from a heap where the map of
    [defaultConfig] is allocated: the entries of the needed tokens start
    [false]; only entries of needed tokens that are in the stream become
    [true]; nothing else changes in the heap. *)
Lemma scanArgs_tracker (h : heap) (lines : list cmdLineItems) (args : list string)
    (m : gmap string bool) :
  Forall (fun it => goodHandler (function it)) lines ->
  h !! needsLoc = Some m ->
  exists m0 : gmap string bool,
    (forall k, m0 !! k = if neededTok lines k then Some false else m !! k) /\
    match scanArgs h lines args with
    | Continue st =>
        stateOK needsLoc st /\
        exists m', st_heap st = <[needsLoc := m']> h /\
                   forall k, m' !! k = m0 !! k \/
                             (In k args /\ neededTok lines k = true /\ m' !! k = Some true)
    | Stop (Returned c e h') =>
        exists m', h' = <[needsLoc := m']> h /\
                   forall k, m' !! k = m0 !! k \/
                             (In k args /\ neededTok lines k = true /\ m' !! k = Some true)
    | Stop Panicked => True
    end.
Proof.
  intros Hgood Hm. unfold scanArgs.
  destruct (initNeeds_spec lines defaultConfig h m Hm) as (m0 & Hi & Hk).
  change (cmdlineNeeds defaultConfig) with needsLoc in Hi.
  exists m0. split; [exact Hk|]. rewrite Hi.
  set (st0 := mkState defaultConfig false None (<[needsLoc := m0]> h)).
  set (Q := fun k : string => In k args /\ neededTok lines k = true).
  assert (stateOK needsLoc st0) as HOK.
  { split; [reflexivity|]. split; [simpl; rewrite lookup_insert_eq; eauto|].
    simpl. intros f. discriminate. }
  assert (forall t, In t args ->
            Forall (fun it => needed it = true -> switchStr it = t -> Q t) lines) as HQ.
  { intros t Hin. apply Forall_forall. intros it Hit Hn Heq. split; [exact Hin|].
    rewrite <- Heq. apply neededTok_intro; [|exact Hn].
    apply list_elem_of_In. exact Hit. }
  pose proof (argLoop_marked lines needsLoc Q Hgood args HQ st0 HOK) as Hl.
  assert (forall h', marked needsLoc Q (st_heap st0) h' ->
            exists m', h' = <[needsLoc := m']> h /\
                       forall k, m' !! k = m0 !! k \/
                                 (In k args /\ neededTok lines k = true /\ m' !! k = Some true))
    as Hview.
  { intros h' (ma & mb & Ha & -> & Hab). simpl in Ha. rewrite lookup_insert_eq in Ha.
    inversion Ha; subst ma. exists mb. split; [simpl; apply insert_insert_eq|].
    intros k. destruct (Hab k) as [E|[[H1 H2] E]]; [left; exact E | right; auto]. }
  destruct (argLoop lines args st0) as [st|[c e h'|]]; [| |exact I].
  - destruct Hl as [HOK' Hmk]. split; [exact HOK' | apply Hview; exact Hmk].
  - apply Hview. exact Hl.
Qed.

(* ===================================================================== *)
(** ** C2: what an error hands back *)
(* ===================================================================== *)




(* ===================================================================== *)
(** ** C3: a mandatory switch that never appears *)
(* ===================================================================== *)

(** For any registry of good handlers: when the token of a needed
    descriptor is not in the stream and the scan reaches the end of the
    stream with no switch waiting for its argument, [argsParse] fails
    with the missing-switch error. *)
Lemma missing_needed_generic (h : heap) (lines : list cmdLineItems) (args : list string)
    (k : string) (st : pstate) :
  Forall (fun it => goodHandler (function it)) lines ->
  is_Some (h !! needsLoc) ->
  neededTok lines k = true ->
  ~ In k args ->
  scanArgs h lines args = Continue st ->
  st_extra st = false ->
  argsParse h lines args
  = Returned defaultConfig (Some (errorsNew "missing needed arg")) (st_heap st).
Proof.
  intros Hgood [m Hm] Hk Hnot Hscan Hextra.
  rewrite argsParse_scan, Hscan, Hextra.
  destruct (scanArgs_tracker h lines args m Hgood Hm) as (m0 & H0 & Hview).
  rewrite Hscan in Hview. destruct Hview as [(Hr & _ & _) (m' & Hh & Hm')].
  assert (m' !! k = Some false) as Hfalse.
  { destruct (Hm' k) as [E|[Hin _]]; [|contradiction].
    rewrite E, H0, Hk. reflexivity. }
  destruct (allNeeds (cmdlineNeeds (st_conf st)) (st_heap st)) eqn:Hall; [|reflexivity].
  exfalso. rewrite Hr, Hh in Hall.
  assert ((<[needsLoc := m']> h : heap) !! needsLoc = Some m') as Hl
    by apply lookup_insert_eq.
  apply (proj1 (allNeeds_true _ _ _ Hl) Hall k). exact Hfalse.
Qed.

(** C3: with the registry of [cmdLineItemInit], from any heap where the
    map of [defaultConfig] is allocated: if one of the mandatory tokens
    [-s] and [-i] occurs nowhere in the stream, and the scan reaches the
    end of the stream (no handler has failed) with no switch waiting for
    its argument, then [argsParse] returns the error "missing needed arg"
    (and the default configuration), whatever else the stream holds. *)
Theorem missing_mandatory_switch (W : World) (h : heap) (args : list string)
    (k : string) (st : pstate) :
  is_Some (h !! needsLoc) ->
  k = "-s" \/ k = "-i" ->
  ~ In k args ->
  scanArgs h (cmdLineItemInit W) args = Continue st ->
  st_extra st = false ->
  argsParse h (cmdLineItemInit W) args
  = Returned defaultConfig (Some (errorsNew "missing needed arg")) (st_heap st).
Proof.
  intros Hh Hk. apply missing_needed_generic; [apply cmdLineItemInit_good | exact Hh |].
  destruct Hk as [-> | ->]; reflexivity.
Qed.

Lemma missing_mandatory_switch_witness :
  let st := mkState (withDBUser "bob" (withMaxDepth 3 (withSymbol "foo" defaultConfig)))
              false (Some funcDBUser) {[ needsLoc := {[ "-s" := true; "-i" := false ]} ]} in
  argsParse initHeap (cmdLineItemInit bareWorld) ["-s"; "foo"; "-x"; "3"; "-u"; "bob"]
  = Returned defaultConfig (Some (errorsNew "missing needed arg")) (st_heap st).
Proof.
  intros st.
  apply (missing_mandatory_switch bareWorld initHeap
           ["-s"; "foo"; "-x"; "3"; "-u"; "bob"] "-i" st).
  - exists ∅. vm_compute. reflexivity.
  - right. reflexivity.
  - simpl. intros H. repeat destruct H as [H|H]; try discriminate H. exact H.
  - vm_compute. reflexivity.
  - reflexivity.
Defined.

(* ===================================================================== *)
(** ** C5: the display mode *)
(* ===================================================================== *)




(* ===================================================================== *)
(** ** C9: the switch of the database host *)
(* ===================================================================== *)

(** C9: the registry has exactly one descriptor with the token [-d], the
    seventh; it takes an argument and is not needed, and its handler,
    given an argument, sets the host field [DBUrl] to that argument as it
    is and returns no error; the parser, ready for a switch, applies it
    to the token that follows [-d]. *)
Theorem registry_dbhost_switch (W : World) :
  exists it,
    filter (fun x => switchStr x = "-d") (cmdLineItemInit W) = [it] /\
    id it = 7 /\ hasArg it = true /\ needed it = false /\
    (forall c a rest, function it c (a :: rest) = HRet (withDBUrl a c) None) /\
    (forall c f h a,
        argLoop (cmdLineItemInit W) ["-d"; a] (mkState c false f h)
        = Continue (mkState (withDBUrl a c) false (Some (function it)) h)).
Proof.
  eexists. split; [vm_compute; reflexivity|].
  simpl. repeat split.
Qed.

(* ===================================================================== *)
(** ** C4: the overlay of the configuration file *)
(* ===================================================================== *)

(** The handler of [-f], on any document: a field that no member of the
    document names is left as it was, whether the handler fails or not. *)
Lemma funcJconf_frame (W : World) (D c' : configuration) (path : string)
    (rest : list string) (e : option error) (F : field) :
  funcJconf W D (path :: rest) = HRet c' e ->
  (forall k, In k (docKeys W path) -> fieldOfKey k <> Some F) ->
  getField F c' = getField F D.
Proof.
  unfold funcJconf, docKeys. intros H HF.
  destruct (osOpen W path) as [data|]; [|inversion H; reflexivity].
  destruct (Unmarshal W data D) as [c1 e1] eqn:HU. inversion H; subst; clear H.
  apply (Unmarshal_frame _ _ _ _ _ HU). intros members k Hs Hin.
  rewrite Hs in HF. apply HF. exact Hin.
Qed.

(** C4: for every working configuration [D] and every file whose
    document is an object with the single member [key: v], [key] naming
    the field [X]: the handler of [-f] returns a configuration that
    agrees with [D] on the tracker reference and on every field other
    than [X]; and when [v] has the type of [X], the handler succeeds
    and [X] holds the value of [v]. *)
Theorem funcJconf_merge_by_presence (W : World) (D : configuration)
    (path data key : string) (X : field) (v : json) :
  osOpen W path = Some data ->
  jsonScan W data = Some (JObject [(key, v)]) ->
  fieldOfKey key = Some X ->
  exists c' e,
    funcJconf W D [path] = HRet c' e /\
    cmdlineNeeds c' = cmdlineNeeds D /\
    (forall F, F <> X -> getField F c' = getField F D) /\
    (forall x, jsonFits X v = Some x -> e = None /\ getField X c' = x).
Proof.
  intros Ho Hs Hk.
  unfold funcJconf, Unmarshal. rewrite Ho, Hs. simpl. rewrite Hk.
  destruct (storeField X v D) as [c1 e1] eqn:H1.
  exists c1, (firstErr e1 None). split; [reflexivity|].
  destruct (storeField_frame _ _ _ _ _ H1) as [Hr Hf].
  split; [exact Hr|]. split; [exact Hf|].
  intros x Hx. destruct (storeField_fits X v x D Hx) as (c2 & H2 & Hg).
  rewrite H1 in H2. inversion H2; subst. split; [reflexivity | reflexivity].
Qed.

Lemma funcJconf_merge_by_presence_witness :
  exists c' e,
    funcJconf fileWorld defaultConfig ["nav.json"] = HRet c' e /\
    cmdlineNeeds c' = cmdlineNeeds defaultConfig /\
    (forall F, F <> FDBPort -> getField F c' = getField F defaultConfig) /\
    (forall x, jsonFits FDBPort (JNumber "5433") = Some x ->
               e = None /\ getField FDBPort c' = x).
Proof.
  apply (funcJconf_merge_by_presence fileWorld defaultConfig
           "nav.json" portDoc "DBPort" FDBPort (JNumber "5433"));
    vm_compute; reflexivity.
Defined.

Example funcJconf_port :
  funcJconf fileWorld defaultConfig ["nav.json"] = HRet (withDBPort 5433 defaultConfig) None.
Proof. vm_compute. reflexivity. Qed.

(* ===================================================================== *)
(** ** C6: the help switch *)
(* ===================================================================== *)

(** C6, as stated, does not hold: a [-h] that follows a switch waiting
    for its argument is that argument. On [-s -h -i 1] the parse
    succeeds, with the symbol "-h". *)
Lemma help_token_as_argument :
  ~ (forall (W : World) (h : heap) (args : list string),
        In "-h" args ->
        exists h', argsParse h (cmdLineItemInit W) args
                   = Returned defaultConfig (Some (errorsNew "command help")) h').
Proof.
  intros H.
  destruct (H bareWorld initHeap ["-s"; "-h"; "-i"; "1"]) as [h' Hh'].
  { simpl. tauto. }
  vm_compute in Hh'. discriminate Hh'.
Qed.

Lemma matchLoop_help (W : World) (st : pstate) :
  matchLoop (cmdLineItemInit W) "-h" st
  = Stop (Returned defaultConfig (Some (errorsNew "command help")) (st_heap st)).
Proof. reflexivity. Qed.

(** C6, amended: when the tokens before a [-h] are scanned with no
    failure and leave the parser ready for a switch, [argsParse] returns
    the error "command help" with the default configuration, and the
    tokens after that [-h] play no part: the result is the same for all
    of them, and the heap is the one the scan of the tokens before it
    left. *)
Theorem help_in_switch_position (W : World) (h : heap) (pre post : list string)
    (st : pstate) :
  scanArgs h (cmdLineItemInit W) pre = Continue st ->
  st_extra st = false ->
  argsParse h (cmdLineItemInit W) (pre ++ "-h" :: post)
  = Returned defaultConfig (Some (errorsNew "command help")) (st_heap st).
Proof.
  intros Hscan Hextra.
  rewrite argsParse_scan, scanArgs_app, Hscan.
  rewrite (argLoop_ready _ _ _ _ Hextra), matchLoop_help. reflexivity.
Qed.

Lemma help_in_switch_position_witness :
  let st := mkState (withSymbol "foo" defaultConfig) false (Some funcSymbol)
              {[ needsLoc := {[ "-s" := true; "-i" := false ]} ]} in
  argsParse initHeap (cmdLineItemInit bareWorld) (["-s"; "foo"] ++ "-h" :: ["-i"; "x"])
  = Returned defaultConfig (Some (errorsNew "command help")) (st_heap st).
Proof.
  intros st.
  apply (help_in_switch_position bareWorld initHeap ["-s"; "foo"] ["-i"; "x"] st).
  - vm_compute. reflexivity.
  - reflexivity.
Defined.

(* ===================================================================== *)
(** ** C7: the tracker is marked when the token is recognized *)
(* ===================================================================== *)

Lemma matchLoop_symbol (W : World) (st : pstate) (m : gmap string bool) :
  st_heap st !! cmdlineNeeds (st_conf st) = Some m ->
  matchLoop (cmdLineItemInit W) "-s" st
  = Continue (mkState (st_conf st) true (Some funcSymbol)
                (<[cmdlineNeeds (st_conf st) := <["-s" := true]> m]> (st_heap st))).
Proof. intros Hm. cbn. unfold mapAssign. rewrite Hm. reflexivity. Qed.

Lemma matchLoop_instance (W : World) (st : pstate) (m : gmap string bool) :
  st_heap st !! cmdlineNeeds (st_conf st) = Some m ->
  matchLoop (cmdLineItemInit W) "-i" st
  = Continue (mkState (st_conf st) true (Some funcInstance)
                (<[cmdlineNeeds (st_conf st) := <["-i" := true]> m]> (st_heap st))).
Proof. intros Hm. cbn. unfold mapAssign. rewrite Hm. reflexivity. Qed.

Lemma Atoi_error_is_NumError (s : string) (e : error) :
  Atoi s = inr e -> exists k, e = NumError "Atoi" s k.
Proof.
  unfold Atoi. destruct (ParseInt s) as [v|k]; intros H; inversion H. eauto.
Qed.

(** C7: with the registry of [cmdLineItemInit], let the tokens [pre] be
    scanned with no failure and leave the parser ready for a switch.
    Then (1) the mandatory token [tok] ([-s] or [-i]) coming next is
    recognized by setting its tracker entry to [true] at once: the parser
    now waits for the argument, and the working configuration is as it
    was, no handler having run; and (2) when [-i] comes next with an
    argument that [Atoi] rejects, [argsParse] returns the error of the
    handler, which is not the missing-switch error, and the tracker entry
    of [-i] is [true] in the heap it leaves. *)
Theorem tracker_marked_on_recognition (W : World) (h : heap) (pre : list string)
    (st : pstate) (tok : string) :
  is_Some (h !! needsLoc) ->
  scanArgs h (cmdLineItemInit W) pre = Continue st ->
  st_extra st = false ->
  tok = "-s" \/ tok = "-i" ->
  (exists st1 m1,
      scanArgs h (cmdLineItemInit W) (pre ++ [tok]) = Continue st1 /\
      st_extra st1 = true /\ st_conf st1 = st_conf st /\
      st_heap st1 !! needsLoc = Some m1 /\ m1 !! tok = Some true) /\
  (forall bad e post,
      Atoi bad = inr e ->
      exists h' m',
        argsParse h (cmdLineItemInit W) (pre ++ "-i" :: bad :: post)
        = Returned defaultConfig (Some e) h' /\
        h' !! needsLoc = Some m' /\ m' !! "-i" = Some true /\
        e <> errorsNew "missing needed arg").
Proof.
  intros [m Hm] Hscan Hextra Htok.
  destruct (scanArgs_tracker h _ pre m (cmdLineItemInit_good W) Hm) as (m0 & _ & Hview).
  rewrite Hscan in Hview. destruct Hview as [(Hr & [ms Hs] & _) _].
  assert (st_heap st !! cmdlineNeeds (st_conf st) = Some ms) as Hs' by (rewrite Hr; exact Hs).
  split.
  - rewrite scanArgs_app, Hscan, (argLoop_ready _ _ _ _ Hextra).
    destruct Htok as [-> | ->].
    + rewrite (matchLoop_symbol W st ms Hs'). eexists _, _. split; [reflexivity|].
      cbn [st_extra st_conf st_heap]. rewrite Hr.
      repeat split; [apply lookup_insert_eq | apply lookup_insert_eq].
    + rewrite (matchLoop_instance W st ms Hs'). eexists _, _. split; [reflexivity|].
      cbn [st_extra st_conf st_heap]. rewrite Hr.
      repeat split; [apply lookup_insert_eq | apply lookup_insert_eq].
  - intros bad e post Hbad.
    rewrite argsParse_scan, scanArgs_app, Hscan, (argLoop_ready _ _ _ _ Hextra).
    rewrite (matchLoop_instance W st ms Hs'), argLoop_pending.
    unfold funcInstance. rewrite Hbad.
    eexists _, _. split; [reflexivity|]. rewrite Hr.
    split; [apply lookup_insert_eq|]. split; [apply lookup_insert_eq|].
    destruct (Atoi_error_is_NumError _ _ Hbad) as [k ->]. discriminate.
Qed.

Lemma tracker_marked_on_recognition_witness :
  let st := mkState (withSymbol "foo" defaultConfig) false (Some funcSymbol)
              {[ needsLoc := {[ "-s" := true; "-i" := false ]} ]} in
  (exists st1 m1,
      scanArgs initHeap (cmdLineItemInit bareWorld) (["-s"; "foo"] ++ ["-i"]) = Continue st1 /\
      st_extra st1 = true /\ st_conf st1 = st_conf st /\
      st_heap st1 !! needsLoc = Some m1 /\ m1 !! "-i" = Some true) /\
  (forall bad e post,
      Atoi bad = inr e ->
      exists h' m',
        argsParse initHeap (cmdLineItemInit bareWorld) (["-s"; "foo"] ++ "-i" :: bad :: post)
        = Returned defaultConfig (Some e) h' /\
        h' !! needsLoc = Some m' /\ m' !! "-i" = Some true /\
        e <> errorsNew "missing needed arg").
Proof.
  intros st.
  apply (tracker_marked_on_recognition bareWorld initHeap ["-s"; "foo"] st "-i").
  - exists ∅. vm_compute. reflexivity.
  - vm_compute. reflexivity.
  - reflexivity.
  - right. reflexivity.
Defined.

Example instance_bad_argument :
  argsParse initHeap (cmdLineItemInit bareWorld) ["-s"; "foo"; "-i"; "two"]
  = Returned defaultConfig (Some (NumError "Atoi" "two" ErrSyntax))
      {[ needsLoc := {[ "-s" := true; "-i" := true ]} ]}.
Proof. vm_compute. reflexivity. Qed.

(* ===================================================================== *)
(** ** C8: two descriptors with one token *)
(* ===================================================================== *)












(* ===================================================================== *)
(** ** No panic with the registry of [cmdLineItemInit] *)
(* ===================================================================== *)





(* ===================================================================== *)
(** ** C10: the tracker map is shared with [defaultConfig] *)
(* ===================================================================== *)

Lemma neededTok_cmdLineItemInit (W : World) (k : string) :
  neededTok (cmdLineItemInit W) k = true <-> k = "-s" \/ k = "-i".
Proof.
  cbn -[String.eqb].
  destruct (String.eqb_spec "-s" k) as [<-|Hs]; [simpl; tauto|].
  destruct (String.eqb_spec "-i" k) as [<-|Hi]; [simpl; tauto|].
  simpl. split; [discriminate | intros [E|E]; congruence].
Qed.






Example tracker_after_failed_parse :
  argsParse initHeap (cmdLineItemInit bareWorld) ["-s"; "foo"; "-i"; "x"]
  = Returned defaultConfig (Some (NumError "Atoi" "x" ErrSyntax))
      {[ needsLoc := {[ "-s" := true; "-i" := true ]} ]} /\
  needsOf defaultConfig initHeap = Some ∅ /\
  needsOf defaultConfig {[ needsLoc := {[ "-s" := true; "-i" := true ]} ]}
  = Some {[ "-s" := true; "-i" := true ]}.
Proof. repeat split; vm_compute; reflexivity. Qed.

(** Two invocations in a row: a parse with a registry whose only switch,
    [-z], is needed leaves the entry of [-z] at [false] in the map of
    [defaultConfig]; a parse of [-s foo -i 2] with the registry of
    [cmdLineItemInit] then fails, though it succeeds from the heap of a
    fresh process. *)
Example tracker_persists_across_calls :
  let lines0 := pushCmdLineItem "-z" "Needed switch" true true funcSymbol [] in
  let h1 : heap := {[ needsLoc := {[ "-z" := false ]} ]} in
  argsParse initHeap lines0 []
  = Returned defaultConfig (Some (errorsNew "missing needed arg")) h1 /\
  argsParse h1 (cmdLineItemInit bareWorld) ["-s"; "foo"; "-i"; "2"]
  = Returned defaultConfig (Some (errorsNew "missing needed arg"))
      {[ needsLoc := {[ "-z" := false; "-s" := true; "-i" := true ]} ]} /\
  argsParse initHeap (cmdLineItemInit bareWorld) ["-s"; "foo"; "-i"; "2"]
  = Returned (withInstance 2 (withSymbol "foo" defaultConfig)) None
      {[ needsLoc := {[ "-s" := true; "-i" := true ]} ]}.
Proof. repeat split; vm_compute; reflexivity. Qed.

(* ===================================================================== *)
(** ** C1: the last occurrence of a switch wins *)
(* ===================================================================== *)

(** The inner loop on a token whose first descriptor takes an argument:
    the tracker is marked when the descriptor is needed, and the handler
    is armed; the later descriptors are not looked at. *)
Lemma matchLoop_first (lines : list cmdLineItems) (t : string) (it : cmdLineItems) :
  handlerOf lines t = Some it ->
  hasArg it = true ->
  forall st,
    matchLoop lines t st =
    match (if needed it
           then mapAssign (cmdlineNeeds (st_conf st)) (switchStr it) true (st_heap st)
           else Some (st_heap st)) with
    | None => Stop Panicked
    | Some h1 => Continue (mkState (st_conf st) true (Some (function it)) h1)
    end.
Proof.
  unfold handlerOf. intros Hfind Harg st.
  induction lines as [|a lines IH]; simpl in *; [discriminate|].
  destruct (String.eqb (switchStr a) t).
  - inversion Hfind; subst a. rewrite Harg. reflexivity.
  - apply IH. exact Hfind.
Qed.

(** The inner loop on a token of no descriptor does nothing. *)
Lemma matchLoop_none (lines : list cmdLineItems) (t : string) :
  handlerOf lines t = None ->
  forall st, matchLoop lines t st = Continue st.
Proof.
  unfold handlerOf. intros Hfind st.
  induction lines as [|a lines IH]; simpl in *; [reflexivity|].
  destruct (String.eqb (switchStr a) t); [discriminate|]. apply IH. exact Hfind.
Qed.

Lemma handlerOf_In (lines : list cmdLineItems) (t : string) (it : cmdLineItems) :
  handlerOf lines t = Some it -> In it lines /\ switchStr it = t.
Proof.
  unfold handlerOf. intros H. apply find_some in H as [Hin Heq].
  split; [exact Hin | apply String.eqb_eq; exact Heq].
Qed.

Lemma trackerAt_insert (h : heap) (m : gmap string bool) (k : string) :
  trackerAt (<[needsLoc := m]> h) k = m !! k.
Proof. unfold trackerAt. rewrite lookup_insert_eq. reflexivity. Qed.

(** The scan of a sequence of segments in order, from a state ready for
    a switch: it reaches the end of the stream, ready for a switch, with
    the configuration that the segments build; an entry [true] of the
    tracker stays [true], and the entry of each needed switch of the
    sequence is [true]. *)
Lemma scan_segments (W : World) (us : list segment) :
  Forall (segmentOK W) us ->
  forall st,
    st_extra st = false -> stateOK needsLoc st ->
    exists st',
      argLoop (cmdLineItemInit W) (render us) st = Continue st' /\
      st_extra st' = false /\ stateOK needsLoc st' /\
      st_conf st' = foldl (applySegment W) (st_conf st) us /\
      (forall k, trackerAt (st_heap st) k = Some true ->
                 trackerAt (st_heap st') k = Some true) /\
      (forall k a it, In (Switch k a) us ->
                      handlerOf (cmdLineItemInit W) k = Some it -> needed it = true ->
                      trackerAt (st_heap st') k = Some true).
Proof.
  induction 1 as [|u us Hu Hus IH]; intros st Hex HOK.
  - exists st. simpl. repeat split; try assumption; try apply HOK; auto.
    intros k a it [].
  - destruct u as [t a|t]; unfold segmentOK in Hu.
    + destruct Hu as (it & Hh & Harg & Hacc).
      destruct (handlerOf_In _ _ _ Hh) as [Hin Htok].
      assert (goodHandler (function it)) as Hgood.
      { pose proof (cmdLineItemInit_good W) as HF.
        rewrite List.Forall_forall in HF. apply HF. exact Hin. }
      change (render (Switch t a :: us)) with (t :: a :: render us).
      cbn [argLoop]. rewrite Hex. cbn [negb].
      rewrite (matchLoop_first _ _ _ Hh Harg).
      destruct HOK as (Hr & [m Hm] & Hf).
      assert (exists h1,
                 (if needed it
                  then mapAssign (cmdlineNeeds (st_conf st)) (switchStr it) true (st_heap st)
                  else Some (st_heap st)) = Some h1 /\
                 is_Some (h1 !! needsLoc) /\
                 (forall k, trackerAt (st_heap st) k = Some true -> trackerAt h1 k = Some true) /\
                 (needed it = true -> trackerAt h1 t = Some true))
        as (h1 & -> & Hs1 & Hmono1 & Hmark1).
      { destruct (needed it).
        - unfold mapAssign. rewrite Hr, Hm. eexists. split; [reflexivity|].
          split; [rewrite lookup_insert_eq; eauto|]. split.
          + intros k Hk. rewrite trackerAt_insert.
            unfold trackerAt in Hk. rewrite Hm in Hk. simpl in Hk.
            destruct (decide (switchStr it = k)) as [->|Hne].
            * apply lookup_insert_eq.
            * rewrite lookup_insert_ne by exact Hne. exact Hk.
          + intros _. rewrite trackerAt_insert, Htok. apply lookup_insert_eq.
        - eexists. split; [reflexivity|]. split; [eauto|]. split; [auto | discriminate]. }
      cbn [st_extra st_f st_conf st_heap negb].
      destruct (Hacc (st_conf st)) as [c' Hc']. rewrite Hc'.
      destruct (IH (mkState c' false (Some (function it)) h1)) as
        (st' & Hl & Hex' & HOK' & Hconf & Hmono & Hmark).
      { reflexivity. }
      { split; [cbn [st_conf]; rewrite (Hgood _ _ _ _ Hc'); exact Hr|].
        split; [exact Hs1|]. cbn [st_f]. intros f [= <-]. exact Hgood. }
      exists st'. split; [exact Hl|]. split; [exact Hex'|]. split; [exact HOK'|].
      split; [|split].
      * rewrite Hconf. cbn [foldl applySegment st_conf]. rewrite Hh, Hc'. reflexivity.
      * intros k Hk. apply Hmono. cbn [st_heap]. apply Hmono1. exact Hk.
      * intros k a0 it0 [Heq|Hin0] Hh0 Hn0.
        -- inversion Heq; subst k a0. rewrite Hh in Hh0. inversion Hh0; subst it0.
           apply Hmono. cbn [st_heap]. apply Hmark1. exact Hn0.
        -- apply (Hmark k a0 it0 Hin0 Hh0 Hn0).
    + change (render (Other t :: us)) with (t :: render us).
      cbn [argLoop]. rewrite Hex. cbn [negb].
      rewrite (matchLoop_none _ _ Hu).
      destruct (IH st Hex HOK) as (st' & Hl & Hex' & HOK' & Hconf & Hmono & Hmark).
      exists st'. repeat split; try assumption; try apply HOK'.
      intros k a it [Heq|Hin0]; [discriminate | eauto].
Qed.

(** What a segment in order does, switch by switch. *)
Lemma applySegment_switch (W : World) (c : configuration) (t a : string) :
  segmentOK W (Switch t a) ->
  (t = "-j" /\ applySegment W c (Switch t a) = withJout a c) \/
  (t = "-s" /\ applySegment W c (Switch t a) = withSymbol a c) \/
  (t = "-i" /\ exists n, Atoi a = inl n /\ applySegment W c (Switch t a) = withInstance n c) \/
  (t = "-f" /\ funcJconf W c [a] = HRet (applySegment W c (Switch t a)) None) \/
  (t = "-u" /\ applySegment W c (Switch t a) = withDBUser a c) \/
  (t = "-p" /\ applySegment W c (Switch t a) = withDBPassword a c) \/
  (t = "-d" /\ applySegment W c (Switch t a) = withDBUrl a c) \/
  (t = "-m" /\ exists n, Atoi a = inl n /\ applySegment W c (Switch t a) = withMode n c) \/
  (t = "-x" /\ exists n, Atoi a = inl n /\ applySegment W c (Switch t a) = withMaxDepth n c).
Proof.
  intros (it & Hh & Harg & Hacc). unfold applySegment. rewrite Hh.
  destruct (Hacc c) as [c' Hc']. rewrite Hc'. clear Hacc.
  unfold handlerOf in Hh. cbn -[String.eqb] in Hh.
  repeat match type of Hh with
         | context [String.eqb ?s t] =>
             destruct (String.eqb_spec s t) as [<-|?Hne];
             [inversion Hh; subst it; clear Hh; cbn [function hasArg] in *|]
         end;
    try discriminate.
  - inversion Hc'. auto.
  - inversion Hc'. auto 10.
  - unfold funcInstance in Hc'. destruct (Atoi a) as [v|]; inversion Hc'. eauto 10.
  - auto 10.
  - inversion Hc'. auto 10.
  - inversion Hc'. auto 10.
  - inversion Hc'. auto 10.
  - unfold funcMode in Hc'. destruct (Atoi a) as [v|]; [|discriminate].
    destruct (_ || _); inversion Hc'. do 7 right. left. eauto.
  - unfold funcDepth in Hc'. destruct (Atoi a) as [v|]; [|discriminate].
    destruct (v <? 0); inversion Hc'. do 8 right. eauto.
Qed.

(** A segment in order leaves the fields that it does not override. *)
Lemma applySegment_frame (W : World) (c : configuration) (u : segment) (F : field) :
  segmentOK W u -> overrides W u F = false ->
  getField F (applySegment W c u) = getField F c.
Proof.
  destruct u as [t a|t]; [|reflexivity]. intros Hok Hov.
  destruct (applySegment_switch W c t a Hok) as
    [[-> E]|[[-> E]|[[-> (n & _ & E)]|[[-> E]|[[-> E]|[[-> E]|[[-> E]|
     [[-> (n & _ & E)]|[-> (n & _ & E)]]]]]]]]].
  - rewrite E. frame_one_field "-j" FJout Hov F.
  - rewrite E. frame_one_field "-s" FSymbol Hov F.
  - rewrite E. frame_one_field "-i" FInstance Hov F.
  - apply (funcJconf_frame W c _ a [] None F E).
    intros k Hin Hk.
    change (existsb (fun k => bool_decide (fieldOfKey k = Some F)) (docKeys W a) = false) in Hov.
    assert (existsb (fun k => bool_decide (fieldOfKey k = Some F)) (docKeys W a) = true) as Ht.
    { apply existsb_exists. exists k. split; [exact Hin|]. apply bool_decide_eq_true. exact Hk. }
    congruence.
  - rewrite E. frame_one_field "-u" FDBUser Hov F.
  - rewrite E. frame_one_field "-p" FDBPassword Hov F.
  - rewrite E. frame_one_field "-d" FDBUrl Hov F.
  - rewrite E. frame_one_field "-m" FMode Hov F.
  - rewrite E. frame_one_field "-x" FMaxDepth Hov F.
Qed.

(** A switch of one field, in order, sets that field to the value of its
    argument. *)
Lemma applySegment_write (W : World) (c : configuration) (t a : string) (F : field) :
  segmentOK W (Switch t a) -> switchField t = Some F ->
  getField F (applySegment W c (Switch t a)) = argValue F a.
Proof.
  intros Hok HF.
  destruct (applySegment_switch W c t a Hok) as
    [[-> E]|[[-> E]|[[-> (n & Hn & E)]|[[-> E]|[[-> E]|[[-> E]|[[-> E]|
     [[-> (n & Hn & E)]|[-> (n & Hn & E)]]]]]]]]];
    try (rewrite E); inversion HF; subst F; unfold argValue; cbn [getField defaultConfig
      Instance Mode MaxDepth]; try rewrite Hn; reflexivity.
Qed.

Lemma foldl_applySegment_frame (W : World) (F : field) (us : list segment) :
  Forall (segmentOK W) us ->
  Forall (fun u => overrides W u F = false) us ->
  forall c, getField F (foldl (applySegment W) c us) = getField F c.
Proof.
  induction 1 as [|u us Hu Hus IH]; intros Hov c; [reflexivity|].
  cbn [foldl]. rewrite IH by exact (Forall_inv_tail Hov).
  apply applySegment_frame; [exact Hu | exact (Forall_inv Hov)].
Qed.

Lemma handlerOf_symbol (W : World) :
  exists it, handlerOf (cmdLineItemInit W) "-s" = Some it /\ needed it = true.
Proof. eexists. split; reflexivity. Qed.

Lemma handlerOf_instance (W : World) :
  exists it, handlerOf (cmdLineItemInit W) "-i" = Some it /\ needed it = true.
Proof. eexists. split; reflexivity. Qed.

(** C1, as stated, does not hold: on [-s foo -i 2 -u] every mandatory
    switch is recognized and given an argument that its handler accepts
    (both tracker entries are [true] at the end of the stream), and no
    handler fails (the scan reaches the end of the stream); but [-u]
    waits for its argument and [argsParse] returns an error. *)
Lemma trailing_switch_fails :
  ~ (forall (W : World) (h : heap) (args : list string) (st : pstate),
        scanArgs h (cmdLineItemInit W) args = Continue st ->
        trackerAt (st_heap st) "-s" = Some true ->
        trackerAt (st_heap st) "-i" = Some true ->
        exists c h', argsParse h (cmdLineItemInit W) args = Returned c None h').
Proof.
  intros H.
  destruct (H bareWorld initHeap ["-s"; "foo"; "-i"; "2"; "-u"]
              (mkState (withInstance 2 (withSymbol "foo" defaultConfig)) true
                 (Some funcDBUser) {[ needsLoc := {[ "-s" := true; "-i" := true ]} ]}))
    as (c & h' & Hres); try (vm_compute; reflexivity).
  vm_compute in Hres. discriminate Hres.
Qed.

(** C1, amended: let the stream be a sequence of segments in order (a
    switch with an argument that its handler accepts, or a token of no
    switch), so that it does not end on a switch that waits for its
    argument; let [-s] and [-i] be among the switches, and let the
    tracker hold no [false] entry left by an earlier parse for another
    key. Then [argsParse] succeeds, and in the configuration it returns
    (1) a field set by a switch of its own holds the value of the
    argument of the last segment that overrides it, when that segment is
    such a switch; (2) a field that no segment overrides holds its
    default value. A segment [-f] overrides the fields that the members
    of its document name. *)
Theorem last_switch_wins (W : World) (h : heap) (m : gmap string bool)
    (us : list segment) :
  h !! needsLoc = Some m ->
  (forall k, k <> "-s" -> k <> "-i" -> m !! k <> Some false) ->
  Forall (segmentOK W) us ->
  (exists a, In (Switch "-s" a) us) ->
  (exists a, In (Switch "-i" a) us) ->
  exists conf h',
    argsParse h (cmdLineItemInit W) (render us) = Returned conf None h' /\
    conf = foldl (applySegment W) defaultConfig us /\
    (forall F us1 tok a us2,
        us = (us1 ++ Switch tok a :: us2)%list ->
        switchField tok = Some F ->
        Forall (fun u => overrides W u F = false) us2 ->
        getField F conf = argValue F a) /\
    (forall F,
        Forall (fun u => overrides W u F = false) us ->
        getField F conf = getField F defaultConfig).
Proof.
  intros Hm Hstale Hok [as_ Hs] [ai Hi].
  destruct (scanArgs_tracker h _ (render us) m (cmdLineItemInit_good W) Hm)
    as (m0 & H0 & Hview).
  rewrite argsParse_scan.
  destruct (scanArgs_init h (cmdLineItemInit W) (render us) m Hm) as (m0' & Hinit).
  destruct (scan_segments W us Hok (mkState defaultConfig false None (<[needsLoc := m0']> h)))
    as (st & Hl & Hex & HOK & Hconf & _ & Hmark).
  { reflexivity. }
  { split; [reflexivity|]. split; [cbn [st_heap]; rewrite lookup_insert_eq; eauto|].
    cbn [st_f]. discriminate. }
  rewrite Hl in Hinit. rewrite Hinit in Hview. rewrite Hinit, Hex.
  destruct Hview as [(Hr & _ & _) (m' & Hh & Hm')].
  assert (allNeeds (cmdlineNeeds (st_conf st)) (st_heap st) = true) as ->.
  { rewrite Hr, Hh.
    assert ((<[needsLoc := m']> h : heap) !! needsLoc = Some m') as Hlk
      by apply lookup_insert_eq.
    apply (proj2 (allNeeds_true _ _ _ Hlk)). intros k Hfalse.
    destruct (handlerOf_symbol W) as (its & Hhs & Hns).
    destruct (handlerOf_instance W) as (iti & Hhi & Hni).
    pose proof (Hmark "-s" as_ its Hs Hhs Hns) as Ts.
    pose proof (Hmark "-i" ai iti Hi Hhi Hni) as Ti.
    rewrite Hh, trackerAt_insert in Ts, Ti.
    destruct (decide (k = "-s")) as [->|Hks]; [congruence|].
    destruct (decide (k = "-i")) as [->|Hki]; [congruence|].
    destruct (Hm' k) as [E|(_ & _ & E)]; [|congruence].
    rewrite E, H0 in Hfalse.
    destruct (neededTok (cmdLineItemInit W) k) eqn:Hn.
    - apply neededTok_cmdLineItemInit in Hn. tauto.
    - apply (Hstale k Hks Hki). exact Hfalse. }
  cbn [st_conf] in Hconf.
  exists (st_conf st), (st_heap st). split; [reflexivity|]. split; [exact Hconf|].
  rewrite Hconf. split.
  - intros F us1 tok a us2 -> HF Hov.
    rewrite foldl_app. cbn [foldl].
    apply Forall_app in Hok as [_ Hok2].
    rewrite foldl_applySegment_frame;
      [|exact (Forall_inv_tail Hok2) | exact Hov].
    apply applySegment_write; [exact (Forall_inv Hok2) | exact HF].
  - intros F Hov. apply foldl_applySegment_frame; assumption.
Qed.

Lemma last_switch_wins_witness :
  let us := [Switch "-s" "foo"; Switch "-x" "3"; Other "junk";
             Switch "-i" "2"; Switch "-s" "bar"] in
  exists conf h',
    argsParse initHeap (cmdLineItemInit bareWorld) (render us) = Returned conf None h' /\
    conf = foldl (applySegment bareWorld) defaultConfig us /\
    (forall F us1 tok a us2,
        us = (us1 ++ Switch tok a :: us2)%list ->
        switchField tok = Some F ->
        Forall (fun u => overrides bareWorld u F = false) us2 ->
        getField F conf = argValue F a) /\
    (forall F,
        Forall (fun u => overrides bareWorld u F = false) us ->
        getField F conf = getField F defaultConfig).
Proof.
  intros us.
  apply (last_switch_wins bareWorld initHeap ∅ us).
  - vm_compute. reflexivity.
  - intros k _ _. rewrite lookup_empty. discriminate.
  - repeat constructor; try (eexists; repeat split; intros c; eexists; reflexivity).
  - exists "foo". simpl. tauto.
  - exists "2". simpl. tauto.
Defined.

Example last_switch_wins_example :
  argsParse initHeap (cmdLineItemInit bareWorld)
    ["-s"; "foo"; "-x"; "3"; "junk"; "-i"; "2"; "-s"; "bar"]
  = Returned (withSymbol "bar" (withInstance 2 (withMaxDepth 3 (withSymbol "foo" defaultConfig))))
      None {[ needsLoc := {[ "-s" := true; "-i" := true ]} ]}.
Proof. vm_compute. reflexivity. Qed.

Example trailing_switch_example :
  argsParse initHeap (cmdLineItemInit bareWorld) ["-s"; "foo"; "-i"; "2"; "-u"]
  = Returned defaultConfig (Some (errorsNew "missing switch arg"))
      {[ needsLoc := {[ "-s" := true; "-i" := true ]} ]}.
Proof. vm_compute. reflexivity. Qed.

Example help_token_as_argument_example :
  argsParse initHeap (cmdLineItemInit bareWorld) ["-s"; "-h"; "-i"; "1"]
  = Returned (withInstance 1 (withSymbol "-h" defaultConfig)) None
      {[ needsLoc := {[ "-s" := true; "-i" := true ]} ]}.
Proof. vm_compute. reflexivity. Qed.

(* ===================================================================== *)
(** ** The registry and the help text *)
(* ===================================================================== *)

Lemma seq_snoc (n : nat) : seq 0 (S n) = (seq 0 n ++ [n])%list.
Proof. rewrite <- Nat.add_1_r. rewrite seq_app. reflexivity. Qed.

(** X1: registering a descriptor keeps the earlier descriptors where
    they are, puts the new one last with the identifier one above the
    number of earlier descriptors, and so keeps the identifiers of the
    registry at 1, 2, ... in registration order. *)
Theorem pushCmdLineItem_ids (s hs : string) (ha nd : bool) (f : argFunc)
    (l : list cmdLineItems) :
  idsSequential l ->
  idsSequential (pushCmdLineItem s hs ha nd f l) /\
  length (pushCmdLineItem s hs ha nd f l) = S (length l) /\
  (forall i, (i < length l)%nat -> pushCmdLineItem s hs ha nd f l !! i = l !! i) /\
  pushCmdLineItem s hs ha nd f l !! length l
  = Some (mkItem f s hs (Z.of_nat (length l) + 1) ha nd).
Proof.
  unfold idsSequential, pushCmdLineItem. intros H.
  split; [|split; [|split]].
  - rewrite length_app. cbn [length]. rewrite Nat.add_1_r, seq_snoc.
    rewrite !map_app, H. reflexivity.
  - rewrite length_app. cbn [length]. lia.
  - intros i Hi. apply lookup_app_l. exact Hi.
  - rewrite lookup_app_r by lia. rewrite Nat.sub_diag. reflexivity.
Qed.

Lemma pushCmdLineItem_ids_witness :
  idsSequential (pushCmdLineItem "-z" "Zoom" true false funcSymbol (cmdLineItemInit bareWorld)) /\
  length (pushCmdLineItem "-z" "Zoom" true false funcSymbol (cmdLineItemInit bareWorld))
  = S (length (cmdLineItemInit bareWorld)) /\
  (forall i, (i < length (cmdLineItemInit bareWorld))%nat ->
             pushCmdLineItem "-z" "Zoom" true false funcSymbol (cmdLineItemInit bareWorld) !! i
             = cmdLineItemInit bareWorld !! i) /\
  pushCmdLineItem "-z" "Zoom" true false funcSymbol (cmdLineItemInit bareWorld)
    !! length (cmdLineItemInit bareWorld)
  = Some (mkItem funcSymbol "-z" "Zoom"
            (Z.of_nat (length (cmdLineItemInit bareWorld)) + 1) true false).
Proof.
  apply (pushCmdLineItem_ids "-z" "Zoom" true false funcSymbol (cmdLineItemInit bareWorld)).
  vm_compute. reflexivity.
Defined.

Lemma countByte_append (c : ascii) (a b : string) :
  countByte c (a ++ b)%string = (countByte c a + countByte c b)%nat.
Proof.
  induction a as [|x a IH]; [reflexivity|].
  change (countByte c (String x (a ++ b)%string)
          = (countByte c (String x a) + countByte c b)%nat).
  cbn [countByte]. rewrite IH. lia.
Qed.

(** X2: registering one more descriptor adds its line at the end of the
    help text and changes nothing before it; the line holds the token,
    the marker [<v>] exactly when the switch takes an argument, and the
    help string, between tabs. *)
Theorem printHelp_push (s hs : string) (ha nd : bool) (f : argFunc)
    (l : list cmdLineItems) :
  printHelp (pushCmdLineItem s hs ha nd f l)
  = (printHelp l ++ (tab ++ s ++ tab ++ (if ha then "<v>" else "") ++ tab ++ hs ++ newline))%string.
Proof.
  unfold printHelp, pushCmdLineItem. rewrite fold_left_app. reflexivity.
Qed.

Lemma countByte_helpLine (it : cmdLineItems) :
  noNewline (switchStr it) = true -> noNewline (helpStr it) = true ->
  countByte (ascii_of_N 10) (helpLine it) = 1%nat.
Proof.
  unfold noNewline, helpLine. intros H1 H2.
  apply Nat.eqb_eq in H1. apply Nat.eqb_eq in H2.
  rewrite !countByte_append, H1, H2. destruct (hasArg it); reflexivity.
Qed.

Lemma countByte_fold_helpLine (l : list cmdLineItems) :
  forallb (fun it => noNewline (switchStr it) && noNewline (helpStr it)) l = true ->
  forall out,
    countByte (ascii_of_N 10) (fold_left (fun out item => (out ++ helpLine item)%string) l out)
    = (countByte (ascii_of_N 10) out + length l)%nat.
Proof.
  induction l as [|it l IH]; intros H out; cbn [fold_left length forallb] in *; [lia|].
  apply andb_true_iff in H as [Hit Hl]. apply andb_true_iff in Hit as [H1 H2].
  rewrite (IH Hl), countByte_append, (countByte_helpLine it H1 H2). lia.
Qed.

(** X3: when no token and no help string of the registry holds a
    newline, the help text has two lines of heading and then one line for
    each descriptor: the number of newlines written is the number of
    descriptors plus two. *)
Theorem printHelp_line_count (l : list cmdLineItems) :
  forallb (fun it => noNewline (switchStr it) && noNewline (helpStr it)) l = true ->
  countByte (ascii_of_N 10) (printHelp l) = (2 + length l)%nat.
Proof.
  intros H. unfold printHelp. rewrite (countByte_fold_helpLine l H). reflexivity.
Qed.

Lemma printHelp_line_count_witness :
  countByte (ascii_of_N 10) (printHelp (cmdLineItemInit bareWorld))
  = (2 + length (cmdLineItemInit bareWorld))%nat.
Proof.
  apply (printHelp_line_count (cmdLineItemInit bareWorld)). vm_compute. reflexivity.
Defined.

(* ===================================================================== *)
(** ** The parser on any registry *)
(* ===================================================================== *)

(** X4: a token that is the token of no descriptor, met while the parser
    is ready for a switch, is skipped: the result of [argsParse] is the
    one for the stream without it, for any registry. *)
Theorem unknown_token_ignored (h : heap) (lines : list cmdLineItems)
    (pre post : list string) (t : string) :
  handlerOf lines t = None ->
  (forall st, scanArgs h lines pre = Continue st -> st_extra st = false) ->
  argsParse h lines (pre ++ t :: post) = argsParse h lines (pre ++ post).
Proof.
  intros Hnone Hready.
  rewrite !argsParse_scan, !scanArgs_app.
  destruct (scanArgs h lines pre) as [st|o] eqn:Hscan; [|reflexivity].
  rewrite (argLoop_ready _ _ _ _ (Hready st eq_refl)), (matchLoop_none _ _ Hnone).
  reflexivity.
Qed.

Lemma unknown_token_ignored_witness :
  argsParse initHeap (cmdLineItemInit bareWorld) (["-s"; "foo"] ++ "junk" :: ["-i"; "2"])
  = argsParse initHeap (cmdLineItemInit bareWorld) (["-s"; "foo"] ++ ["-i"; "2"]).
Proof.
  apply (unknown_token_ignored initHeap (cmdLineItemInit bareWorld)
           ["-s"; "foo"] ["-i"; "2"] "junk").
  - vm_compute. reflexivity.
  - intros st H. vm_compute in H. inversion H. reflexivity.
Defined.

(** X5: a return from inside the scan decides the result: when the scan
    of the first tokens leaves the function (a handler has failed, or a
    panic), [argsParse] on a longer stream gives that same result, and
    the tokens that follow are not processed. *)
Theorem first_failure_decides (h : heap) (lines : list cmdLineItems)
    (pre post : list string) (o : outcome) :
  scanArgs h lines pre = Stop o ->
  argsParse h lines (pre ++ post) = o.
Proof.
  intros Hscan. rewrite argsParse_scan, scanArgs_app, Hscan. reflexivity.
Qed.

Lemma first_failure_decides_witness :
  argsParse initHeap (cmdLineItemInit bareWorld) (["-x"; "-1"] ++ ["-s"; "foo"; "-i"; "2"])
  = Returned defaultConfig (Some (errorsNew "depth must be >= 0"))
      {[ needsLoc := {[ "-s" := false; "-i" := false ]} ]}.
Proof.
  apply (first_failure_decides initHeap (cmdLineItemInit bareWorld)
           ["-x"; "-1"] ["-s"; "foo"; "-i"; "2"]).
  vm_compute. reflexivity.
Defined.

(** The state that the scan of a registry of good handlers reaches. *)
Lemma scanArgs_stateOK (h : heap) (lines : list cmdLineItems) (args : list string)
    (st : pstate) :
  Forall (fun it => goodHandler (function it)) lines ->
  is_Some (h !! needsLoc) ->
  scanArgs h lines args = Continue st ->
  stateOK needsLoc st.
Proof.
  intros Hgood [m Hm] Hscan.
  destruct (scanArgs_tracker h lines args m Hgood Hm) as (m0 & _ & Hview).
  rewrite Hscan in Hview. apply Hview.
Qed.

(** The inner loop on the token of an argument-taking descriptor, from a
    state whose tracker map is allocated: the handler of the first such
    descriptor is armed, the configuration is as it was. *)
Lemma matchLoop_arms (lines : list cmdLineItems) (t : string) (it : cmdLineItems)
    (st : pstate) :
  stateOK needsLoc st ->
  handlerOf lines t = Some it -> hasArg it = true ->
  exists h1, matchLoop lines t st
             = Continue (mkState (st_conf st) true (Some (function it)) h1).
Proof.
  intros (Hr & [m Hm] & _) Hh Harg.
  rewrite (matchLoop_first _ _ _ Hh Harg).
  destruct (needed it); [|eauto].
  unfold mapAssign. rewrite Hr, Hm. eauto.
Qed.

(** X6: for any registry of good handlers: when the handler of an
    argument-taking switch fails on its argument, [argsParse] returns
    that error with the default configuration, whatever the handler did
    to the working configuration and whatever tokens follow. *)
Theorem handler_failure_aborts (h : heap) (lines : list cmdLineItems)
    (pre post : list string) (st : pstate) (t a : string) (it : cmdLineItems)
    (c' : configuration) (e : error) :
  Forall (fun it => goodHandler (function it)) lines ->
  is_Some (h !! needsLoc) ->
  scanArgs h lines pre = Continue st ->
  st_extra st = false ->
  handlerOf lines t = Some it ->
  hasArg it = true ->
  function it (st_conf st) [a] = HRet c' (Some e) ->
  exists h', argsParse h lines (pre ++ t :: a :: post)
             = Returned defaultConfig (Some e) h'.
Proof.
  intros Hgood Hh Hscan Hex Hit Harg Hcall.
  pose proof (scanArgs_stateOK _ _ _ _ Hgood Hh Hscan) as HOK.
  destruct (matchLoop_arms lines t it st HOK Hit Harg) as [h1 Hm].
  rewrite argsParse_scan, scanArgs_app, Hscan, (argLoop_ready _ _ _ _ Hex), Hm.
  rewrite argLoop_pending, Hcall. eauto.
Qed.

Lemma handler_failure_aborts_witness :
  exists h', argsParse initHeap (cmdLineItemInit fileWorld)
               (["-s"; "foo"] ++ "-f" :: "missing.json" :: ["-i"; "2"])
             = Returned defaultConfig (Some (PathError "open" "missing.json")) h'.
Proof.
  apply (handler_failure_aborts initHeap (cmdLineItemInit fileWorld)
           ["-s"; "foo"] ["-i"; "2"]
           (mkState (withSymbol "foo" defaultConfig) false (Some funcSymbol)
              {[ needsLoc := {[ "-s" := true; "-i" := false ]} ]})
           "-f" "missing.json"
           (mkItem (funcJconf fileWorld) "-f" "Specifies config file" 4 true false)
           (withSymbol "foo" defaultConfig)).
  - apply cmdLineItemInit_good.
  - exists ∅. vm_compute. reflexivity.
  - vm_compute. reflexivity.
  - reflexivity.
  - reflexivity.
  - reflexivity.
  - reflexivity.
Defined.

(** X7: for any registry of good handlers: a stream that ends on the
    token of an argument-taking switch, met while the parser is ready for
    a switch, makes [argsParse] return the error "missing switch arg"
    with the default configuration. *)
Theorem trailing_switch_missing_arg (h : heap) (lines : list cmdLineItems)
    (pre : list string) (st : pstate) (t : string) (it : cmdLineItems) :
  Forall (fun it => goodHandler (function it)) lines ->
  is_Some (h !! needsLoc) ->
  scanArgs h lines pre = Continue st ->
  st_extra st = false ->
  handlerOf lines t = Some it ->
  hasArg it = true ->
  exists h', argsParse h lines (pre ++ [t])
             = Returned defaultConfig (Some (errorsNew "missing switch arg")) h'.
Proof.
  intros Hgood Hh Hscan Hex Hit Harg.
  pose proof (scanArgs_stateOK _ _ _ _ Hgood Hh Hscan) as HOK.
  destruct (matchLoop_arms lines t it st HOK Hit Harg) as [h1 Hm].
  rewrite argsParse_scan, scanArgs_app, Hscan, (argLoop_ready _ _ _ _ Hex), Hm.
  cbn [argLoop st_extra st_heap]. eauto.
Qed.

Lemma trailing_switch_missing_arg_witness :
  exists h', argsParse initHeap (cmdLineItemInit bareWorld) (["-s"; "foo"; "-i"; "2"] ++ ["-m"])
             = Returned defaultConfig (Some (errorsNew "missing switch arg")) h'.
Proof.
  apply (trailing_switch_missing_arg initHeap (cmdLineItemInit bareWorld)
           ["-s"; "foo"; "-i"; "2"]
           (mkState (withInstance 2 (withSymbol "foo" defaultConfig)) false
              (Some funcInstance) {[ needsLoc := {[ "-s" := true; "-i" := true ]} ]})
           "-m"
           (mkItem (funcMode bareWorld) "-m" "Sets display mode 2=subsystems,1=all" 9 true false)).
  - apply cmdLineItemInit_good.
  - exists ∅. vm_compute. reflexivity.
  - reflexivity.
  - reflexivity.
  - reflexivity.
  - reflexivity.
Defined.

(** X8: for any registry of good handlers: [argsParse] succeeds only on
    a stream in which the token of every needed descriptor occurs, and
    it then leaves the tracker entry of each of them at [true]. *)
Theorem success_needs_every_token (h : heap) (lines : list cmdLineItems)
    (args : list string) (c : configuration) (h' : heap) (k : string) :
  Forall (fun it => goodHandler (function it)) lines ->
  is_Some (h !! needsLoc) ->
  argsParse h lines args = Returned c None h' ->
  neededTok lines k = true ->
  In k args /\ trackerAt h' k = Some true.
Proof.
  intros Hgood [m Hm] Hres Hk.
  destruct (scanArgs_tracker h lines args m Hgood Hm) as (m0 & H0 & Hview).
  rewrite argsParse_scan in Hres.
  destruct (scanArgs h lines args) as [st|o] eqn:Hscan.
  - destruct Hview as [(Hr & _ & _) (m' & Hh & Hm')].
    destruct (st_extra st); [discriminate|].
    destruct (allNeeds _ _) eqn:Hall; [|discriminate].
    inversion Hres; subst c h'. rewrite Hr, Hh in Hall.
    assert ((<[needsLoc := m']> h : heap) !! needsLoc = Some m') as Hl
      by apply lookup_insert_eq.
    pose proof (proj1 (allNeeds_true _ _ _ Hl) Hall k) as Hnf.
    rewrite Hh, trackerAt_insert.
    destruct (Hm' k) as [E|(Hin & _ & E)]; [|split; assumption].
    exfalso. apply Hnf. rewrite E, H0, Hk. reflexivity.
  - subst o. destruct (scanArgs_stop _ _ _ _ _ _ Hscan) as [_ Hne]. congruence.
Qed.

Lemma success_needs_every_token_witness :
  In "-i" ["-s"; "foo"; "-i"; "2"] /\
  trackerAt {[ needsLoc := {[ "-s" := true; "-i" := true ]} ]} "-i" = Some true.
Proof.
  apply (success_needs_every_token initHeap (cmdLineItemInit bareWorld)
           ["-s"; "foo"; "-i"; "2"] (withInstance 2 (withSymbol "foo" defaultConfig))).
  - apply cmdLineItemInit_good.
  - exists ∅. vm_compute. reflexivity.
  - vm_compute. reflexivity.
  - vm_compute. reflexivity.
Defined.

(** The tracker that the first loop leaves is the same from the heap
    before a parse and from the heap after it. *)
Lemma initNeeds_after_parse (h : heap) (lines : list cmdLineItems)
    (m m' : gmap string bool) :
  h !! needsLoc = Some m ->
  (forall k, neededTok lines k = false -> m' !! k = m !! k) ->
  initNeeds lines defaultConfig (<[needsLoc := m']> h) = initNeeds lines defaultConfig h.
Proof.
  intros Hm Hsame.
  destruct (initNeeds_spec lines defaultConfig h m Hm) as (m0 & Hi & H0).
  destruct (initNeeds_spec lines defaultConfig (<[needsLoc := m']> h) m') as (m1 & Hi1 & H1).
  { apply lookup_insert_eq. }
  change (cmdlineNeeds defaultConfig) with needsLoc in *.
  rewrite Hi, Hi1. f_equal. rewrite insert_insert_eq. f_equal.
  apply map_eq. intros k. rewrite H0, H1.
  destruct (neededTok lines k) eqn:Hk; [reflexivity | apply Hsame; exact Hk].
Qed.

(** X9: for any registry of good handlers: a call of [argsParse] can be
    repeated. From the heap that a call leaves, the same registry and the
    same stream give the same configuration and the same error, and
    leave the heap as it is: the entries that the call wrote are reset by
    the first loop of the next one. *)
Theorem argsParse_repeatable (h : heap) (lines : list cmdLineItems)
    (args : list string) (c : configuration) (e : option error) (h' : heap) :
  Forall (fun it => goodHandler (function it)) lines ->
  is_Some (h !! needsLoc) ->
  argsParse h lines args = Returned c e h' ->
  argsParse h' lines args = Returned c e h'.
Proof.
  intros Hgood [m Hm] Hres.
  destruct (scanArgs_tracker h lines args m Hgood Hm) as (m0 & H0 & Hview).
  assert (exists m' : gmap string bool,
             h' = <[needsLoc := m']> h /\
             forall k, neededTok lines k = false -> m' !! k = m !! k) as (m' & -> & Hsame).
  { assert (forall m' : gmap string bool,
              (forall k, m' !! k = m0 !! k \/
                         (In k args /\ neededTok lines k = true /\ m' !! k = Some true)) ->
              forall k, neededTok lines k = false -> m' !! k = m !! k) as Hold.
    { intros m' Hm' k Hk. destruct (Hm' k) as [E|(_ & Hn & _)]; [|congruence].
      rewrite E, H0, Hk. reflexivity. }
    rewrite argsParse_scan in Hres.
    destruct (scanArgs h lines args) as [st|[c1 e1 h1|]] eqn:Hscan.
    - destruct Hview as [_ (m' & Hh & Hm')]. exists m'. split; [|apply Hold; exact Hm'].
      rewrite <- Hh. destruct (st_extra st); [inversion Hres; reflexivity|].
      destruct (allNeeds _ _); inversion Hres; reflexivity.
    - destruct Hview as (m' & Hh & Hm'). exists m'. split; [|apply Hold; exact Hm'].
      inversion Hres; subst. reflexivity.
    - discriminate. }
  unfold argsParse in *.
  rewrite (initNeeds_after_parse h lines m m' Hm Hsame). exact Hres.
Qed.

Lemma argsParse_repeatable_witness :
  argsParse {[ needsLoc := {[ "-s" := true; "-i" := true ]} ]}
    (cmdLineItemInit bareWorld) ["-s"; "foo"; "-i"; "x"]
  = Returned defaultConfig (Some (NumError "Atoi" "x" ErrSyntax))
      {[ needsLoc := {[ "-s" := true; "-i" := true ]} ]}.
Proof.
  apply (argsParse_repeatable initHeap (cmdLineItemInit bareWorld) ["-s"; "foo"; "-i"; "x"]).
  - apply cmdLineItemInit_good.
  - exists ∅. vm_compute. reflexivity.
  - vm_compute. reflexivity.
Defined.

Lemma initNeeds_no_needed (lines : list cmdLineItems) (conf : configuration) (h : heap) :
  existsb needed lines = false -> initNeeds lines conf h = Some h.
Proof.
  induction lines as [|it lines IH]; intros H; simpl in *; [reflexivity|].
  apply orb_false_iff in H as [Hn Hl]. rewrite Hn. apply IH. exact Hl.
Qed.

Lemma neededTok_of_existsb (lines : list cmdLineItems) :
  existsb needed lines = true -> exists k, neededTok lines k = true.
Proof.
  intros H. apply existsb_exists in H as (it & Hin & Hn).
  exists (switchStr it). apply neededTok_intro; assumption.
Qed.

(** X10: the empty stream, for any registry of good handlers, from a
    heap whose tracker holds no [false] entry: with no needed descriptor
    in the registry [argsParse] returns the default configuration and no
    error, and leaves the heap as it is; with a needed descriptor it
    returns the error "missing needed arg". *)
Theorem empty_stream (h : heap) (lines : list cmdLineItems) (m : gmap string bool) :
  Forall (fun it => goodHandler (function it)) lines ->
  h !! needsLoc = Some m ->
  (forall k, m !! k <> Some false) ->
  (existsb needed lines = false ->
   argsParse h lines [] = Returned defaultConfig None h) /\
  (existsb needed lines = true ->
   exists h', argsParse h lines []
              = Returned defaultConfig (Some (errorsNew "missing needed arg")) h').
Proof.
  intros Hgood Hm Hclean. split; intros Hn.
  - unfold argsParse. rewrite (initNeeds_no_needed _ _ _ Hn).
    cbn [argLoop st_extra st_conf st_heap].
    change (cmdlineNeeds defaultConfig) with needsLoc.
    rewrite (proj2 (allNeeds_true needsLoc h m Hm) Hclean). reflexivity.
  - destruct (neededTok_of_existsb lines Hn) as [k Hk].
    destruct (scanArgs_init h lines [] m Hm) as (m0 & Hinit).
    cbn [argLoop] in Hinit.
    eexists.
    apply (missing_needed_generic h lines [] k
             (mkState defaultConfig false None (<[needsLoc := m0]> h))
             Hgood (ex_intro _ m Hm) Hk);
      [intros [] | exact Hinit | reflexivity].
Qed.

Lemma empty_stream_witness :
  (existsb needed (cmdLineItemInit bareWorld) = false ->
   argsParse initHeap (cmdLineItemInit bareWorld) [] = Returned defaultConfig None initHeap) /\
  (existsb needed (cmdLineItemInit bareWorld) = true ->
   exists h', argsParse initHeap (cmdLineItemInit bareWorld) []
              = Returned defaultConfig (Some (errorsNew "missing needed arg")) h').
Proof.
  apply (empty_stream initHeap (cmdLineItemInit bareWorld) ∅).
  - apply cmdLineItemInit_good.
  - vm_compute. reflexivity.
  - intros k. rewrite lookup_empty. discriminate.
Defined.


(* ===================================================================== *)
(** ** The handlers *)
(* ===================================================================== *)

Lemma handlerTable_spec (W : World) (f : argFunc) (X : option field) :
  In (f, X) (handlerTable W) ->
  forall c a c' e,
    f c a = HRet c' e ->
    cmdlineNeeds c' = cmdlineNeeds c /\
    (forall F, X <> Some F -> getField F c' = getField F c) /\
    (e <> None -> c' = c).
Proof.
  intros Hin c a c' e H. unfold handlerTable in Hin. simpl in Hin.
  repeat (destruct Hin as [Hin|Hin]; [inversion Hin; subst f X; clear Hin|]);
    try contradiction;
    match type of H with ?g _ _ = _ => try unfold g in H end;
    try unfold funcMode in H;
    (destruct a as [|x a]; [try discriminate|]);
    repeat match type of H with
           | context [Atoi ?s] => destruct (Atoi s)
           | context [if ?b then _ else _] => destruct b
           end;
    inversion H; subst; clear H;
    (split; [reflexivity|]);
    (split; [intros F HF; destruct F; try reflexivity; exfalso; apply HF; reflexivity
            | intros He; try reflexivity; exfalso; apply He; reflexivity]).
Qed.

(** X12: the handlers that the registry binds are, in order, those of
    [-j -s -i -f -u -p -d -p -m -x -h]; each of them but the one of [-f]
    changes at most the one field it stands for (and [funcHelp] none),
    never the tracker reference, and when it returns an error it leaves
    the configuration exactly as it found it. *)
Theorem handlers_local_and_atomic (W : World) :
  List.map function (cmdLineItemInit W)
  = [funcOutType; funcSymbol; funcInstance; funcJconf W; funcDBUser; funcDBPass;
     funcDBHost; funcDBPort; funcMode W; funcDepth; funcHelp] /\
  forall f X,
    In (f, X) (handlerTable W) ->
    forall c a c' e,
      f c a = HRet c' e ->
      cmdlineNeeds c' = cmdlineNeeds c /\
      (forall F, X <> Some F -> getField F c' = getField F c) /\
      (e <> None -> c' = c).
Proof. split; [reflexivity | apply handlerTable_spec]. Qed.

Lemma handlers_local_and_atomic_witness :
  cmdlineNeeds defaultConfig = cmdlineNeeds defaultConfig /\
  (forall F, Some FMaxDepth <> Some F -> getField F defaultConfig = getField F defaultConfig) /\
  (Some (errorsNew "depth must be >= 0") <> None -> defaultConfig = defaultConfig).
Proof.
  apply (proj2 (handlers_local_and_atomic bareWorld) funcDepth (Some FMaxDepth)
           ltac:(simpl; tauto) defaultConfig ["-1"] defaultConfig
           (Some (errorsNew "depth must be >= 0"))).
  reflexivity.
Defined.

(** The handler of [-f] is not atomic: decoding goes on after a member
    of the wrong type, so the working configuration is changed although
    the handler fails; [argsParse] then drops it. *)
Example funcJconf_partial_change :
  let W := {| OutModeLast := 3;
              osOpen := fun _ => Some "doc";
              jsonScan := fun _ => Some (JObject [("Symbol", JString "main");
                                                  ("DBPort", JString "x")]) |} in
  funcJconf W defaultConfig ["any.json"]
  = HRet (withSymbol "main" defaultConfig) (Some (UnmarshalTypeError "string" "DBPort")) /\
  argsParse initHeap (cmdLineItemInit W) ["-f"; "any.json"; "-s"; "foo"; "-i"; "2"]
  = Returned defaultConfig (Some (UnmarshalTypeError "string" "DBPort"))
      {[ needsLoc := {[ "-s" := false; "-i" := false ]} ]}.
Proof. split; vm_compute; reflexivity. Qed.

(** *** Properties that every handler but the one of [-f] keeps *)

Lemma matchLoop_keeps (W : World) (P : configuration -> Prop) (t : string) (st : pstate) :
  t <> "-f" ->
  (forall f X, In (f, X) (handlerTable W) -> keeps P f) ->
  (forall f, st_f st = Some f -> keeps P f) ->
  match matchLoop (cmdLineItemInit W) t st with
  | Continue st' =>
      st_conf st' = st_conf st /\ (forall f, st_f st' = Some f -> keeps P f)
  | Stop _ => True
  end.
Proof.
  intros Hf HT Hst.
  assert (forall f, (exists X, In (f, X) (handlerTable W)) -> keeps P f) as HT'
    by (intros f [X HX]; exact (HT f X HX)).
  cbn -[String.eqb].
  repeat match goal with
         | |- context [String.eqb ?a t] =>
             destruct (String.eqb_spec a t); [try congruence|]
         | |- context [mapAssign ?r ?k ?v ?h] => destruct (mapAssign r k v h)
         | |- True => exact I
         | |- _ /\ _ =>
             split; [reflexivity
                    | cbn [st_f]; intros f [= <-]; apply HT'; eexists;
                      unfold handlerTable; simpl; tauto]
         end.
  split; [reflexivity | exact Hst].
Qed.

Lemma argLoop_keeps (W : World) (P : configuration -> Prop) (args : list string) :
  ~ In "-f" args ->
  (forall f X, In (f, X) (handlerTable W) -> keeps P f) ->
  forall st,
    (forall f, st_f st = Some f -> keeps P f) ->
    P (st_conf st) ->
    match argLoop (cmdLineItemInit W) args st with
    | Continue st' => P (st_conf st')
    | Stop _ => True
    end.
Proof.
  intros Hnot HT. induction args as [|t args IH]; intros st Hst HP; [exact HP|].
  assert (t <> "-f") as Ht by (intros ->; apply Hnot; left; reflexivity).
  assert (~ In "-f" args) as Hnot' by (intros Hin; apply Hnot; right; exact Hin).
  specialize (IH Hnot').
  destruct (st_extra st) eqn:Hex.
  - destruct (st_f st) as [f|] eqn:Hsf.
    + destruct st as [c ex fo hp]. cbn [st_extra st_f st_conf] in *. subst ex fo.
      rewrite argLoop_pending.
      destruct (f c [t]) as [c' [err|]|] eqn:Hcall; try exact I.
      apply IH; cbn [st_f st_conf].
      * intros g [= <-]. apply Hst. reflexivity.
      * apply (Hst f eq_refl c [t] c' HP Hcall).
    + cbn [argLoop]. rewrite Hex, Hsf. exact I.
  - rewrite (argLoop_ready _ _ _ _ Hex).
    pose proof (matchLoop_keeps W P t st Ht HT Hst) as Hm.
    destruct (matchLoop (cmdLineItemInit W) t st) as [st1|]; [|exact I].
    destruct Hm as [Hc Hf1]. apply IH; [exact Hf1 | rewrite Hc; exact HP].
Qed.

(** A property of the default configuration that every handler but the
    one of [-f] keeps holds of the configuration that a successful parse
    of a stream without [-f] returns. *)
Lemma argsParse_keeps (W : World) (P : configuration -> Prop) (h : heap)
    (args : list string) (c : configuration) (h' : heap) :
  ~ In "-f" args ->
  (forall f X, In (f, X) (handlerTable W) -> keeps P f) ->
  P defaultConfig ->
  argsParse h (cmdLineItemInit W) args = Returned c None h' ->
  P c.
Proof.
  intros Hnot HT HP Hres. rewrite argsParse_scan in Hres.
  assert (match scanArgs h (cmdLineItemInit W) args with
          | Continue st => P (st_conf st)
          | Stop _ => True
          end) as Hk.
  { unfold scanArgs. pose proof (argLoop_keeps W P args Hnot HT) as Hl. revert Hl.
    generalize (cmdLineItemInit W). intros lines Hl.
    destruct (initNeeds lines defaultConfig h) as [h0|]; [|exact I].
    apply (Hl (mkState defaultConfig false None h0)); [cbn [st_f]; discriminate | exact HP]. }
  destruct (scanArgs h (cmdLineItemInit W) args) as [st|o] eqn:Hscan.
  - destruct (st_extra st); [discriminate|].
    destruct (allNeeds _ _); [|discriminate].
    inversion Hres; subst. exact Hk.
  - subst o. destruct (scanArgs_stop _ _ _ _ _ _ Hscan) as [_ Hne]. congruence.
Qed.

Lemma handlers_keep_valid (W : World) (f : argFunc) (X : option field) :
  In (f, X) (handlerTable W) -> keeps (validConf W) f.
Proof.
  intros Hin c a c' [Hd Hm] H. unfold handlerTable in Hin. simpl in Hin.
  repeat (destruct Hin as [Hin|Hin]; [inversion Hin; subst f X; clear Hin|]);
    try contradiction;
    match type of H with ?g _ _ = _ => try unfold g in H end;
    try unfold funcMode in H;
    (destruct a as [|x a]; [try discriminate|]);
    repeat match type of H with
           | context [Atoi ?s] => destruct (Atoi s)
           end;
    try discriminate;
    try (inversion H; subst; split; assumption).
  - destruct ((z <? printAll) || (OutModeLast W <=? z)) eqn:Hb; [discriminate|].
    inversion H; subst. apply orb_false_iff in Hb as [H1 H2].
    apply Z.ltb_ge in H1. apply Z.leb_gt in H2.
    split; [exact Hd | cbn [Mode withMode]; lia].
  - destruct (z <? 0) eqn:Hb; [discriminate|].
    inversion H; subst. apply Z.ltb_ge in Hb.
    split; [cbn [MaxDepth withMaxDepth]; exact Hb | exact Hm].
Qed.

(** X13: with the registry of [cmdLineItemInit] and the default mode
    below the end marker of the modes: the configuration that a
    successful parse of a stream without [-f] returns has a depth that is
    not negative and a mode within the range that [funcMode] checks. *)
Theorem parsed_depth_and_mode_valid (W : World) (h : heap) (args : list string)
    (c : configuration) (h' : heap) :
  printSubsys < OutModeLast W ->
  ~ In "-f" args ->
  argsParse h (cmdLineItemInit W) args = Returned c None h' ->
  0 <= MaxDepth c /\ printAll <= Mode c < OutModeLast W.
Proof.
  intros Hlast Hnot Hres.
  apply (argsParse_keeps W (validConf W) h args c h' Hnot (handlers_keep_valid W));
    [|exact Hres].
  unfold validConf. cbn [MaxDepth Mode defaultConfig]. unfold printAll, printSubsys in *. lia.
Qed.

Lemma parsed_depth_and_mode_valid_witness :
  0 <= MaxDepth (withMode 1 (withMaxDepth 7 (withInstance 2 (withSymbol "foo" defaultConfig)))) /\
  printAll <= Mode (withMode 1 (withMaxDepth 7 (withInstance 2 (withSymbol "foo" defaultConfig))))
  < OutModeLast bareWorld.
Proof.
  apply (parsed_depth_and_mode_valid bareWorld initHeap
           ["-s"; "foo"; "-i"; "2"; "-x"; "7"; "-m"; "1"] _
           {[ needsLoc := {[ "-s" := true; "-i" := true ]} ]}).
  - vm_compute. reflexivity.
  - simpl. intros H. repeat destruct H as [H|H]; try discriminate H. exact H.
  - vm_compute. reflexivity.
Defined.

(** X14: the target database and the three lists of subsystems have no
    switch: in the configuration that a successful parse of a stream
    without [-f] returns, they hold their default values. *)
Theorem fields_without_switch_keep_default (W : World) (h : heap) (args : list string)
    (c : configuration) (h' : heap) :
  ~ In "-f" args ->
  argsParse h (cmdLineItemInit W) args = Returned c None h' ->
  DBTargetDB c = DBTargetDB defaultConfig /\
  ExcludedBefore c = [] /\ ExcludedAfter c = [] /\ TargetSubsys c = [].
Proof.
  intros Hnot Hres.
  assert (forall F, In F [FDBTargetDB; FExcludedBefore; FExcludedAfter; FTargetSubsys] ->
                    getField F c = getField F defaultConfig) as HF.
  { intros F HinF.
    apply (argsParse_keeps W (fun c => getField F c = getField F defaultConfig)
             h args c h' Hnot); [|reflexivity|exact Hres].
    intros f X Hin c0 a c1 HP Hcall.
    destruct (handlerTable_spec W f X Hin c0 a c1 None Hcall) as (_ & Hframe & _).
    rewrite <- HP. apply Hframe. intros ->.
    unfold handlerTable in Hin. simpl in Hin, HinF.
    repeat (destruct Hin as [Hin|Hin]; [inversion Hin; subst; clear Hin|]);
      try contradiction;
      repeat (destruct HinF as [HinF|HinF]; [discriminate HinF|]); contradiction. }
  pose proof (HF FDBTargetDB ltac:(simpl; tauto)) as H1.
  pose proof (HF FExcludedBefore ltac:(simpl; tauto)) as H2.
  pose proof (HF FExcludedAfter ltac:(simpl; tauto)) as H3.
  pose proof (HF FTargetSubsys ltac:(simpl; tauto)) as H4.
  cbn [getField] in H1, H2, H3, H4.
  injection H1 as E1. injection H2 as E2. injection H3 as E3. injection H4 as E4.
  exact (conj E1 (conj E2 (conj E3 E4))).
Qed.

Lemma fields_without_switch_keep_default_witness :
  let c := withDBUser "bob" (withInstance 2 (withSymbol "foo" defaultConfig)) in
  DBTargetDB c = DBTargetDB defaultConfig /\
  ExcludedBefore c = [] /\ ExcludedAfter c = [] /\ TargetSubsys c = [].
Proof.
  intros c.
  apply (fields_without_switch_keep_default bareWorld initHeap
           ["-s"; "foo"; "-i"; "2"; "-u"; "bob"] c
           {[ needsLoc := {[ "-s" := true; "-i" := true ]} ]}).
  - simpl. intros H. repeat destruct H as [H|H]; try discriminate H. exact H.
  - vm_compute. reflexivity.
Defined.

(** X15: the overlay of [-f] does not go through the checks of [-x] and
    [-m]. For a document whose single member is an integer that
    [ParseInt] accepts: when the member names the depth and the integer
    is negative, the handler of [-f] succeeds and sets the depth to it,
    though the handler of [-x] rejects the same literal; when the member
    names the mode and the integer is outside the range of the modes,
    the handler of [-f] sets the mode to it, though the handler of [-m]
    rejects the literal. *)
Theorem overlay_skips_range_checks (W : World) (D : configuration)
    (path data key lit : string) (n : Z) :
  osOpen W path = Some data ->
  jsonScan W data = Some (JObject [(key, JNumber lit)]) ->
  ParseInt lit = inl n ->
  (fieldOfKey key = Some FMaxDepth -> n < 0 ->
   funcJconf W D [path] = HRet (withMaxDepth n D) None /\
   funcDepth D [lit] = HRet D (Some (errorsNew "depth must be >= 0"))) /\
  (fieldOfKey key = Some FMode -> n < printAll \/ OutModeLast W <= n ->
   funcJconf W D [path] = HRet (withMode n D) None /\
   funcMode W D [lit] = HRet D (Some (errorsNew "unsupported mode"))).
Proof.
  intros Ho Hs Hp. split; intros Hk Hn.
  - split.
    + unfold funcJconf, Unmarshal. rewrite Ho, Hs. cbn [storeMembers]. rewrite Hk.
      unfold storeField, storeInt. rewrite Hp. reflexivity.
    + unfold funcDepth, Atoi. rewrite Hp.
      replace (n <? 0) with true by (symmetry; apply Z.ltb_lt; exact Hn). reflexivity.
  - split.
    + unfold funcJconf, Unmarshal. rewrite Ho, Hs. cbn [storeMembers]. rewrite Hk.
      unfold storeField, storeInt. rewrite Hp. reflexivity.
    + unfold funcMode, Atoi. rewrite Hp.
      replace ((n <? printAll) || (OutModeLast W <=? n)) with true; [reflexivity|].
      symmetry. apply orb_true_iff.
      destruct Hn as [Hn|Hn]; [left; apply Z.ltb_lt | right; apply Z.leb_le]; exact Hn.
Qed.

Lemma overlay_skips_range_checks_witness :
  (fieldOfKey "MaxDepth" = Some FMaxDepth -> -5 < 0 ->
   funcJconf depthWorld defaultConfig ["depth.json"]
   = HRet (withMaxDepth (-5) defaultConfig) None /\
   funcDepth defaultConfig ["-5"]
   = HRet defaultConfig (Some (errorsNew "depth must be >= 0"))) /\
  (fieldOfKey "MaxDepth" = Some FMode -> -5 < printAll \/ OutModeLast depthWorld <= -5 ->
   funcJconf depthWorld defaultConfig ["depth.json"]
   = HRet (withMode (-5) defaultConfig) None /\
   funcMode depthWorld defaultConfig ["-5"]
   = HRet defaultConfig (Some (errorsNew "unsupported mode"))).
Proof.
  apply (overlay_skips_range_checks depthWorld defaultConfig
           "depth.json" depthDoc "MaxDepth" "-5" (-5));
    vm_compute; reflexivity.
Defined.

Example negative_depth_from_file :
  argsParse initHeap (cmdLineItemInit depthWorld) ["-s"; "foo"; "-i"; "2"; "-f"; "depth.json"]
  = Returned (withMaxDepth (-5) (withInstance 2 (withSymbol "foo" defaultConfig))) None
      {[ needsLoc := {[ "-s" := true; "-i" := true ]} ]}.
Proof. vm_compute. reflexivity. Qed.

(* ===================================================================== *)
(** ** The order of the switches *)
(* ===================================================================== *)

(** A stream of segments in order, with both mandatory switches: the
    parse succeeds with the configuration that the segments build. *)
Lemma segments_resolve (W : World) (h : heap) (m : gmap string bool) (us : list segment) :
  h !! needsLoc = Some m ->
  (forall k, k <> "-s" -> k <> "-i" -> m !! k <> Some false) ->
  Forall (segmentOK W) us ->
  (exists a, In (Switch "-s" a) us) ->
  (exists a, In (Switch "-i" a) us) ->
  exists h',
    argsParse h (cmdLineItemInit W) (render us)
    = Returned (foldl (applySegment W) defaultConfig us) None h'.
Proof.
  intros Hm Hstale Hok [as_ Hs] [ai Hi].
  destruct (scanArgs_tracker h _ (render us) m (cmdLineItemInit_good W) Hm)
    as (m0 & H0 & Hview).
  rewrite argsParse_scan.
  destruct (scanArgs_init h (cmdLineItemInit W) (render us) m Hm) as (m0' & Hinit).
  destruct (scan_segments W us Hok (mkState defaultConfig false None (<[needsLoc := m0']> h)))
    as (st & Hl & Hex & HOK & Hconf & _ & Hmark).
  { reflexivity. }
  { split; [reflexivity|]. split; [cbn [st_heap]; rewrite lookup_insert_eq; eauto|].
    cbn [st_f]. discriminate. }
  rewrite Hl in Hinit. rewrite Hinit in Hview. rewrite Hinit, Hex.
  destruct Hview as [(Hr & _ & _) (m' & Hh & Hm')].
  assert (allNeeds (cmdlineNeeds (st_conf st)) (st_heap st) = true) as ->.
  { rewrite Hr, Hh.
    assert ((<[needsLoc := m']> h : heap) !! needsLoc = Some m') as Hlk
      by apply lookup_insert_eq.
    apply (proj2 (allNeeds_true _ _ _ Hlk)). intros k Hfalse.
    destruct (handlerOf_symbol W) as (its & Hhs & Hns).
    destruct (handlerOf_instance W) as (iti & Hhi & Hni).
    pose proof (Hmark "-s" as_ its Hs Hhs Hns) as Ts.
    pose proof (Hmark "-i" ai iti Hi Hhi Hni) as Ti.
    rewrite Hh, trackerAt_insert in Ts, Ti.
    destruct (decide (k = "-s")) as [->|Hks]; [congruence|].
    destruct (decide (k = "-i")) as [->|Hki]; [congruence|].
    destruct (Hm' k) as [E|(_ & _ & E)]; [|congruence].
    rewrite E, H0 in Hfalse.
    destruct (neededTok (cmdLineItemInit W) k) eqn:Hn.
    - apply neededTok_cmdLineItemInit in Hn. tauto.
    - apply (Hstale k Hks Hki). exact Hfalse. }
  cbn [st_conf] in Hconf. rewrite Hconf. eauto.
Qed.

Lemma configuration_ext (c1 c2 : configuration) :
  cmdlineNeeds c1 = cmdlineNeeds c2 ->
  (forall F, getField F c1 = getField F c2) ->
  c1 = c2.
Proof.
  intros Hr HF. destruct c1, c2. cbn [cmdlineNeeds] in Hr. subst.
  pose proof (HF FDBTargetDB) as H1. pose proof (HF FDBUrl) as H2.
  pose proof (HF FDBUser) as H3. pose proof (HF FDBPassword) as H4.
  pose proof (HF FSymbol) as H5. pose proof (HF FJout) as H6.
  pose proof (HF FExcludedBefore) as H7. pose proof (HF FExcludedAfter) as H8.
  pose proof (HF FTargetSubsys) as H9. pose proof (HF FInstance) as H10.
  pose proof (HF FMaxDepth) as H11. pose proof (HF FMode) as H12.
  pose proof (HF FDBPort) as H13.
  cbn in H1, H2, H3, H4, H5, H6, H7, H8, H9, H10, H11, H12, H13.
  congruence.
Qed.

Lemma applySegment_ref (W : World) (c : configuration) (u : segment) :
  segmentOK W u -> cmdlineNeeds (applySegment W c u) = cmdlineNeeds c.
Proof.
  destruct u as [t a|t]; [|reflexivity]. intros (it & Hh & Harg & Hacc).
  unfold applySegment. rewrite Hh. destruct (Hacc c) as [c' Hc']. rewrite Hc'.
  destruct (handlerOf_In _ _ _ Hh) as [Hin _].
  pose proof (cmdLineItemInit_good W) as HF. rewrite List.Forall_forall in HF.
  apply (HF it Hin _ _ _ _ Hc').
Qed.

Lemma overrides_other_switch (W : World) (t a : string) (F F' : field) :
  switchField t = Some F -> F <> F' -> overrides W (Switch t a) F' = false.
Proof.
  intros HF Hne. unfold overrides.
  destruct (String.eqb_spec t "-f") as [->|_]; [discriminate HF|].
  apply bool_decide_eq_false. rewrite HF. congruence.
Qed.

Lemma applySegment_commute (W : World) (c : configuration) (t1 a1 t2 a2 : string)
    (F1 F2 : field) :
  segmentOK W (Switch t1 a1) -> segmentOK W (Switch t2 a2) ->
  switchField t1 = Some F1 -> switchField t2 = Some F2 -> F1 <> F2 ->
  applySegment W (applySegment W c (Switch t1 a1)) (Switch t2 a2)
  = applySegment W (applySegment W c (Switch t2 a2)) (Switch t1 a1).
Proof.
  intros H1 H2 HF1 HF2 Hne. apply configuration_ext.
  - rewrite !applySegment_ref by assumption. reflexivity.
  - intros F.
    destruct (decide (F = F1)) as [->|N1].
    + rewrite (applySegment_frame W _ (Switch t2 a2) F1 H2)
        by (apply (overrides_other_switch W t2 a2 F2 F1 HF2); congruence).
      rewrite !(applySegment_write W _ t1 a1 F1 H1 HF1). reflexivity.
    + destruct (decide (F = F2)) as [->|N2].
      * rewrite (applySegment_write W _ t2 a2 F2 H2 HF2).
        rewrite (applySegment_frame W _ (Switch t1 a1) F2 H1)
          by (apply (overrides_other_switch W t1 a1 F1 F2 HF1); exact Hne).
        rewrite (applySegment_write W _ t2 a2 F2 H2 HF2). reflexivity.
      * rewrite !applySegment_frame;
          try assumption; try reflexivity;
          first [apply (overrides_other_switch W t1 a1 F1 F HF1); congruence
                | apply (overrides_other_switch W t2 a2 F2 F HF2); congruence].
Qed.

(** X16: two neighbouring switches that set different fields can change
    places: for a stream of segments in order with both mandatory
    switches, the parse succeeds on the stream and on the stream with the
    two switches exchanged, and returns the same configuration. *)
Theorem switch_order_irrelevant (W : World) (h : heap) (m : gmap string bool)
    (us1 us2 : list segment) (t1 a1 t2 a2 : string) (F1 F2 : field) :
  h !! needsLoc = Some m ->
  (forall k, k <> "-s" -> k <> "-i" -> m !! k <> Some false) ->
  Forall (segmentOK W) (us1 ++ Switch t1 a1 :: Switch t2 a2 :: us2)%list ->
  (exists a, In (Switch "-s" a) (us1 ++ Switch t1 a1 :: Switch t2 a2 :: us2)%list) ->
  (exists a, In (Switch "-i" a) (us1 ++ Switch t1 a1 :: Switch t2 a2 :: us2)%list) ->
  switchField t1 = Some F1 -> switchField t2 = Some F2 -> F1 <> F2 ->
  exists conf h1 h2,
    argsParse h (cmdLineItemInit W)
      (render (us1 ++ Switch t1 a1 :: Switch t2 a2 :: us2)%list)
    = Returned conf None h1 /\
    argsParse h (cmdLineItemInit W)
      (render (us1 ++ Switch t2 a2 :: Switch t1 a1 :: us2)%list)
    = Returned conf None h2.
Proof.
  intros Hm Hstale Hok Hs Hi HF1 HF2 Hne.
  assert (forall x, In x (us1 ++ Switch t1 a1 :: Switch t2 a2 :: us2)%list ->
                    In x (us1 ++ Switch t2 a2 :: Switch t1 a1 :: us2)%list) as Hperm.
  { intros x Hx. apply in_app_or in Hx. apply in_or_app. simpl in *. tauto. }
  assert (Forall (segmentOK W) (us1 ++ Switch t2 a2 :: Switch t1 a1 :: us2)%list) as Hok'.
  { apply Forall_app in Hok as [Ha Hb].
    apply Forall_app. split; [exact Ha|].
    pose proof (Forall_inv Hb) as Hb1. pose proof (Forall_inv_tail Hb) as Hb'.
    pose proof (Forall_inv Hb') as Hb2. pose proof (Forall_inv_tail Hb') as Hb3.
    repeat constructor; assumption. }
  destruct (segments_resolve W h m _ Hm Hstale Hok Hs Hi) as [h1 Hr1].
  destruct (segments_resolve W h m _ Hm Hstale Hok') as [h2 Hr2].
  { destruct Hs as [a Ha]. exists a. apply Hperm. exact Ha. }
  { destruct Hi as [a Ha]. exists a. apply Hperm. exact Ha. }
  eexists _, h1, h2. split; [exact Hr1|]. rewrite Hr2. f_equal.
  rewrite !foldl_app. cbn [foldl]. f_equal.
  apply Forall_app in Hok as [_ Hb].
  pose proof (Forall_inv Hb) as Hb1. pose proof (Forall_inv (Forall_inv_tail Hb)) as Hb2.
  symmetry. apply (applySegment_commute W _ t1 a1 t2 a2 F1 F2); assumption.
Qed.

Lemma switch_order_irrelevant_witness :
  exists conf h1 h2,
    argsParse initHeap (cmdLineItemInit bareWorld)
      (render ([Switch "-s" "foo"] ++ Switch "-u" "bob" :: Switch "-x" "3"
                 :: [Switch "-i" "2"])%list)
    = Returned conf None h1 /\
    argsParse initHeap (cmdLineItemInit bareWorld)
      (render ([Switch "-s" "foo"] ++ Switch "-x" "3" :: Switch "-u" "bob"
                 :: [Switch "-i" "2"])%list)
    = Returned conf None h2.
Proof.
  apply (switch_order_irrelevant bareWorld initHeap ∅
           [Switch "-s" "foo"] [Switch "-i" "2"] "-u" "bob" "-x" "3" FDBUser FMaxDepth).
  - vm_compute. reflexivity.
  - intros k _ _. rewrite lookup_empty. discriminate.
  - repeat constructor; try (eexists; repeat split; intros c; eexists; reflexivity).
  - exists "foo". simpl. tauto.
  - exists "2". simpl. tauto.
  - reflexivity.
  - reflexivity.
  - discriminate.
Defined.

(* ===================================================================== *)
(** ** Switches without argument, and members without field *)
(* ===================================================================== *)

Lemma matchLoop_app_none (l1 rest : list cmdLineItems) (t : string) :
  handlerOf l1 t = None ->
  forall st, matchLoop (l1 ++ rest) t st = matchLoop rest t st.
Proof.
  unfold handlerOf. induction l1 as [|a l1 IH]; intros H st; [reflexivity|].
  simpl in *. destruct (String.eqb (switchStr a) t); [discriminate|]. apply IH. exact H.
Qed.

(** X17: the inner loop stops at the first descriptor that matches only
    when that descriptor takes an argument. For two descriptors without
    argument that share a token (neither of them needed), both handlers
    run on that token, in registration order, the second on the
    configuration that the first leaves. *)
Theorem noarg_duplicates_both_run (l1 l2 l3 : list cmdLineItems) (d1 d2 : cmdLineItems)
    (t : string) (st : pstate) (c1 c2 : configuration) :
  handlerOf l1 t = None -> handlerOf l2 t = None -> handlerOf l3 t = None ->
  switchStr d1 = t -> switchStr d2 = t ->
  hasArg d1 = false -> hasArg d2 = false ->
  needed d1 = false -> needed d2 = false ->
  function d1 (st_conf st) [] = HRet c1 None ->
  function d2 c1 [] = HRet c2 None ->
  matchLoop (l1 ++ d1 :: l2 ++ d2 :: l3) t st
  = Continue (mkState c2 (st_extra st) (st_f st) (st_heap st)).
Proof.
  intros H1 H2 H3 E1 E2 A1 A2 N1 N2 C1 C2.
  rewrite (matchLoop_app_none _ _ _ H1). cbn [matchLoop].
  rewrite E1, String.eqb_refl, N1, A1, C1.
  rewrite (matchLoop_app_none _ _ _ H2). cbn [matchLoop st_conf st_extra st_f st_heap].
  rewrite E2, String.eqb_refl, N2, A2, C2.
  rewrite (matchLoop_none _ _ H3). reflexivity.
Qed.

Lemma noarg_duplicates_both_run_witness :
  let mark (s : string) : argFunc := fun conf _ => HRet (withJout (Jout conf ++ s) conf) None in
  let d1 := mkItem (mark "a") "-v" "First" 1 false false in
  let d2 := mkItem (mark "b") "-v" "Second" 2 false false in
  matchLoop ([] ++ d1 :: [] ++ d2 :: []) "-v" (mkState defaultConfig false None initHeap)
  = Continue (mkState (withJout "graphOnlyab" defaultConfig) false None initHeap).
Proof.
  intros mark d1 d2.
  apply (noarg_duplicates_both_run [] [] [] d1 d2 "-v"
           (mkState defaultConfig false None initHeap)
           (withJout "graphOnlya" defaultConfig)
           (withJout "graphOnlyab" defaultConfig));
    reflexivity.
Defined.

Lemma storeMembers_no_field (members : list (string * json)) (c : configuration) :
  Forall (fun kv => fieldOfKey (fst kv) = None) members ->
  storeMembers members c = (c, None).
Proof.
  induction 1 as [|[k v] rest Hk Hrest IH]; [reflexivity|].
  cbn [storeMembers]. cbn [fst] in Hk. rewrite Hk, IH. reflexivity.
Qed.

(** X18: a document that is an object none of whose members names an
    exported field (unknown names, or the name of the tracker field
    [cmdlineNeeds], which is not exported) is accepted by the handler of
    [-f] and changes nothing in the configuration. *)
Theorem funcJconf_unknown_members (W : World) (c : configuration)
    (path data : string) (members : list (string * json)) :
  osOpen W path = Some data ->
  jsonScan W data = Some (JObject members) ->
  Forall (fun kv => fieldOfKey (fst kv) = None) members ->
  fieldOfKey "cmdlineNeeds" = None /\
  funcJconf W c [path] = HRet c None.
Proof.
  intros Ho Hs Hm. split; [vm_compute; reflexivity|].
  unfold funcJconf, Unmarshal. rewrite Ho, Hs, (storeMembers_no_field _ _ Hm). reflexivity.
Qed.

Lemma funcJconf_unknown_members_witness :
  let W := {| OutModeLast := 3;
              osOpen := fun _ => Some "doc";
              jsonScan := fun _ => Some (JObject [("cmdlineNeeds", JObject [("-s", JBool true)]);
                                                  ("Verbose", JBool true)]) |} in
  fieldOfKey "cmdlineNeeds" = None /\
  funcJconf W defaultConfig ["any.json"] = HRet defaultConfig None.
Proof.
  intros W.
  apply (funcJconf_unknown_members W defaultConfig "any.json" "doc"
           [("cmdlineNeeds", JObject [("-s", JBool true)]); ("Verbose", JBool true)]).
  - reflexivity.
  - reflexivity.
  - repeat constructor.
Defined.
